(** * kb-color: keyboard backlight control over hidraw

    A shallow embedding of [kb-color.c]: the colour table, the state
    store ([load_state], [save_state]), the nine byte feature report
    assembled by [send_packet], the scan of [/sys/class/hidraw] and the
    argument loop of [main].

    Machine integers are [Z]; a store into a [uint8_t] object is written
    [u8], the reduction modulo 256 that the C conversion performs. *)

From Stdlib Require Import ZArith List String Ascii Bool Lia Permutation.
From Stdlib Require Import DecimalString.
Import ListNotations.

Local Open Scope string_scope.
Local Open Scope list_scope.
Local Open Scope Z_scope.

(** ** Constants of the source *)

Definition VENDOR_ID : Z := 0x1044.
Definition PRODUCT_ID : Z := 0x7a3b.
Definition USB_INPUT_IFACE : string := "input3".
Definition HID_BUS_USB : Z := 0x0003.

Definition PKT_SIZE : Z := 9.
Definition PKT_REPORT_ID : Z := 0x00.
Definition PKT_CMD : Z := 0x08.
Definition PKT_BYTE2 : Z := 0x00.
Definition PKT_BYTE3 : Z := 0x01.
Definition PKT_BYTE4 : Z := 0x01.
Definition PKT_BYTE7 : Z := 0x01.
Definition PKT_CHECKSUM_INIT : Z := 0xff.
Definition PKT_CHECKSUM_BYTES : nat := 8.
Definition PKT_BRIGHTNESS_DIV : Z := 2.

Definition COLOR_ID_OFF : Z := 0x05.
Definition COLOR_COUNT : nat := 7.

Definition BRIGHTNESS_MIN : Z := 0.
Definition BRIGHTNESS_MAX : Z := 100.

(** ** Machine bytes *)

(** Conversion of an [int] to [uint8_t]. *)
Definition u8 (z : Z) : Z := z mod 256.

(** The values a [uint8_t] object holds. *)
Definition is_u8 (z : Z) : Prop := 0 <= z < 256.

(** ** The colour table *)

Definition COLORS : list (string * Z) :=
  [ ("red", 1); ("green", 2); ("yellow", 3); ("blue", 4);
    ("orange", 5); ("purple", 6); ("white", 7) ].

(** [strcmp(a, b) == 0] *)
Definition streq (a b : string) : bool := String.eqb a b.

(** The loop of [color_id_from_name], over any table. *)
Fixpoint lookup_color (tbl : list (string * Z)) (name : string) : Z :=
  match tbl with
  | [] => 0
  | (n, id) :: tbl' => if streq n name then id else lookup_color tbl' name
  end.

Definition color_id_from_name (name : string) : Z := lookup_color COLORS name.

(** A colour id is valid when some row of [COLORS] carries it. *)
Definition valid_color (c : Z) : Prop := In c (map snd COLORS).

Definition valid_colorb (c : Z) : bool := existsb (Z.eqb c) (map snd COLORS).

(** ** Packet construction (the first half of [send_packet]) *)

(** [for (i = 0; i < n; i++) sum += pkt[i];] with [sum] a [uint8_t]:
    every addition is reduced to eight bits. *)
Fixpoint sum_loop (bytes : list Z) (sum : Z) : Z :=
  match bytes with
  | [] => sum
  | b :: bytes' => sum_loop bytes' (u8 (sum + b))
  end.

(** Bytes 0 to 7, in the order the source assigns them. *)
Definition packet_head (color_id brightness : Z) : list Z :=
  [ PKT_REPORT_ID; PKT_CMD; PKT_BYTE2; PKT_BYTE3; PKT_BYTE4;
    u8 (brightness / PKT_BRIGHTNESS_DIV);
    u8 (if brightness >? BRIGHTNESS_MIN then color_id else COLOR_ID_OFF);
    PKT_BYTE7 ].

Definition build_packet (color_id brightness : Z) : list Z :=
  let head := packet_head color_id brightness in
  let sum := sum_loop (firstn PKT_CHECKSUM_BYTES head) 0 in
  head ++ [ u8 (PKT_CHECKSUM_INIT - sum) ].

(** [pkt[i]] *)
Definition byte_at (i : nat) (pkt : list Z) : Z := nth i pkt 0.

(** Plain (unbounded) sum of a byte list. *)
Definition total (bytes : list Z) : Z := fold_right Z.add 0 bytes.

(** ** The state store *)

(** [typedef struct { uint8_t color_id; uint8_t brightness; } State;] *)
Record State : Type := mkState { color_id : Z; brightness : Z }.

(** What the process sees of its environment: the two variables that
    locate the state file, the file itself, and the hidraw registry. *)
Record hidraw_entry : Type := mkEntry {
  d_name : string;                 (* name returned by readdir *)
  uevent : option (list string);   (* lines fgets yields; None when fopen fails *)
  dev_open : bool;                 (* open("/dev/<name>", O_RDWR) >= 0 *)
  ioctl_ret : Z                    (* result of the HIDIOCSFEATURE(9) ioctl *)
}.

Record World : Type := mkWorld {
  env_xdg : option string;            (* getenv("XDG_CONFIG_HOME") *)
  env_home : option string;           (* getenv("HOME") *)
  state_file : option (list Z);       (* bytes readable from the state file;
                                         None when fopen(path, "rb") fails *)
  state_writable : bool;              (* fopen(path, "wb") succeeds *)
  hidraw : option (list hidraw_entry) (* opendir and the readdir sequence;
                                         None when opendir fails *)
}.

Definition STATE_DIR_FALLBACK : string := ".config".
Definition STATE_APP_DIR : string := "kb-color".
Definition STATE_FILE_NAME : string := "state".
Definition STATE_HOME_FALLBACK : string := "/root".

Definition home_or_fallback (w : World) : string :=
  match env_home w with Some h => h | None => STATE_HOME_FALLBACK end.

(** [PATH_MAX] of Linux's <limits.h>: the size of the path buffers. *)
Definition PATH_MAX : nat := 4096.

(** The first [n] characters of [s]. *)
Fixpoint take_chars (n : nat) (s : string) : string :=
  match n, s with
  | S n', String c s' => String c (take_chars n' s')
  | _, _ => EmptyString
  end.

(** [snprintf(buf, size, ...)] for formatted text [s]: at most [size - 1]
    characters are stored before the terminating zero. *)
Definition snprintf (size : nat) (s : string) : string :=
  take_chars (size - 1) s.

(** The text [ensure_state_dir] formats, before it is cut to the buffer. *)
Definition state_dir_fmt (w : World) : string :=
  match env_xdg w with
  | Some xdg => (xdg ++ "/" ++ STATE_APP_DIR)%string
  | None => (home_or_fallback w ++ "/" ++ STATE_DIR_FALLBACK ++ "/"
               ++ STATE_APP_DIR)%string
  end.

(** The text [state_path] formats, before it is cut to the buffer. *)
Definition state_path_fmt (w : World) : string :=
  match env_xdg w with
  | Some xdg => (xdg ++ "/" ++ STATE_APP_DIR ++ "/" ++ STATE_FILE_NAME)%string
  | None => (home_or_fallback w ++ "/" ++ STATE_DIR_FALLBACK ++ "/"
               ++ STATE_APP_DIR ++ "/" ++ STATE_FILE_NAME)%string
  end.

(** The directory [ensure_state_dir] creates: [char dir[PATH_MAX]]. *)
Definition state_dir (w : World) : string :=
  snprintf PATH_MAX (state_dir_fmt w).

(** The file [state_path] names: [static char path[PATH_MAX]]. *)
Definition state_path (w : World) : string :=
  snprintf PATH_MAX (state_path_fmt w).

(** Observable actions, in program order. *)
Inductive event : Type :=
| EvMkdir (dir : string)
| EvOpenWrite (path : string) (ok : bool)
| EvFwrite (bytes : list Z)
| EvDevOpen (name : string) (ok : bool)
| EvIoctl (name : string) (pkt : list Z) (ret : Z)
| EvDevClose (name : string)
| EvStdout (text : string)
| EvStderr (text : string).

(** [State s = { COLORS[COLOR_COUNT - 1].id, BRIGHTNESS_MAX };] *)
Definition default_state : State :=
  mkState (snd (nth (COLOR_COUNT - 1) COLORS (EmptyString, 0))) BRIGHTNESS_MAX.

(** [fread(&s, sizeof(s), 1, f)] with the return value ignored: the bytes
    that could be read are copied over the front of [s].  With a single
    byte available the element is partial; glibc has then overwritten
    [color_id] and left [brightness] (ISO C calls the value indeterminate). *)
Definition fread_state (bytes : list Z) (s : State) : State :=
  match bytes with
  | [] => s
  | [c] => mkState c (brightness s)
  | c :: b :: _ => mkState c b
  end.

Definition load_state (w : World) : State :=
  let s := default_state in
  match state_file w with
  | None => s
  | Some bytes => fread_state bytes s
  end.

Definition set_state_file (w : World) (bytes : list Z) : World :=
  mkWorld (env_xdg w) (env_home w) (Some bytes) (state_writable w) (hidraw w).

(** [save_state]: one [mkdir] whose result is dropped, one [fopen], and,
    when that succeeds, one [fwrite] of the whole struct. *)
Definition save_state (w : World) (color_id brightness : Z)
  : World * list event :=
  let log := [EvMkdir (state_dir w)] in
  if state_writable w then
    let s := [color_id; brightness] in
    (set_state_file w s, log ++ [EvOpenWrite (state_path w) true; EvFwrite s])
  else (w, log ++ [EvOpenWrite (state_path w) false]).

(** ** The C library routines the scan relies on *)

Definition code (c : ascii) : Z := Z.of_N (N_of_ascii c).

(** [isspace] in the C locale. *)
Definition isspace (c : ascii) : bool :=
  (code c =? 32) || ((9 <=? code c) && (code c <=? 13)).

Fixpoint skip_space (s : string) : string :=
  match s with
  | String c s' => if isspace c then skip_space s' else s
  | EmptyString => s
  end.

Definition dec_val (c : ascii) : option Z :=
  if (48 <=? code c) && (code c <=? 57) then Some (code c - 48) else None.

Definition hex_val (c : ascii) : option Z :=
  if (48 <=? code c) && (code c <=? 57) then Some (code c - 48)
  else if (65 <=? code c) && (code c <=? 70) then Some (code c - 55)
  else if (97 <=? code c) && (code c <=? 102) then Some (code c - 87)
  else None.

(** At most [width] hexadecimal digits; returns the value, the number of
    digits taken and the unread input. *)
Fixpoint hex_digits (width : nat) (s : string) (acc : Z) (cnt : nat)
  : Z * nat * string :=
  match width, s with
  | S width', String c s' =>
      match hex_val c with
      | Some d => hex_digits width' s' (16 * acc + d) (S cnt)
      | None => (acc, cnt, s)
      end
  | _, _ => (acc, cnt, s)
  end.

(** A [%X] conversion of field width [width] into an [unsigned int], as
    glibc scans it: leading white space is skipped, a sign and a [0x]
    prefix count against the width, and at least one digit is needed (the
    [0] of a bare prefix is one).  [None] is a matching failure. *)
Definition scan_hex (width : nat) (s : string) : option (Z * string) :=
  let s := skip_space s in
  let '(neg, width, s) :=
    match width, s with
    | S w, String "-"%char s' => (true, w, s')
    | S w, String "+"%char s' => (false, w, s')
    | _, _ => (false, width, s)
    end in
  let value (v : Z) := (if neg then - v else v) mod 2 ^ 32 in
  match width, s with
  | S w, String "0"%char s' =>
      let '(w, s') :=
        match w, s' with
        | S w', String c s'' =>
            if (c =? "x")%char || (c =? "X")%char then (w', s'') else (w, s')
        | _, _ => (w, s')
        end in
      let '(v, _, rest) := hex_digits w s' 0 0 in
      Some (value v, rest)
  | _, _ =>
      let '(v, cnt, rest) := hex_digits width s 0 0 in
      match cnt with
      | O => None
      | S _ => Some (value v, rest)
      end
  end.

(** A literal of a scanf format: every character has to match. *)
Fixpoint scan_literal (lit s : string) : option string :=
  match lit, s with
  | EmptyString, _ => Some s
  | String a lit', String b s' =>
      if (a =? b)%char then scan_literal lit' s' else None
  | String _ _, EmptyString => None
  end.

(** [sscanf(line, "HID_ID=%04X:%08X:%08X", &bus, &vid, &pid) == 3]:
    [Some (bus, vid, pid)] exactly when all three conversions succeed. *)
Definition sscanf_hid_id (line : string) : option (Z * Z * Z) :=
  match scan_literal "HID_ID=" line with
  | None => None
  | Some s =>
  match scan_hex 4 s with
  | None => None
  | Some (bus, s) =>
  match scan_literal ":" s with
  | None => None
  | Some s =>
  match scan_hex 8 s with
  | None => None
  | Some (vid, s) =>
  match scan_literal ":" s with
  | None => None
  | Some s =>
  match scan_hex 8 s with
  | None => None
  | Some (pid, _) => Some (bus, vid, pid)
  end end end end end end.

(** [strstr(hay, needle) != NULL] *)
Fixpoint strstr (hay needle : string) : bool :=
  if String.prefix needle hay then true
  else match hay with
       | EmptyString => false
       | String _ hay' => strstr hay' needle
       end.

(** ** Discovery (the second half of [send_packet]) *)

(** The identity test applied to one line of the descriptor. *)
Definition line_is_device (line : string) : bool :=
  match sscanf_hid_id line with
  | Some (bus, vid, pid) =>
      (bus =? HID_BUS_USB) && (vid =? VENDOR_ID) && (pid =? PRODUCT_ID)
  | None => false
  end.

(** The interface-label test applied to one line. *)
Definition line_has_iface (line : string) : bool := strstr line USB_INPUT_IFACE.

(** Body of the [fgets] loop: each flag is raised on its own and never
    lowered. *)
Definition line_step (flags : bool * bool) (line : string) : bool * bool :=
  let '(match_vid, match_iface) := flags in
  let match_vid := if line_is_device line then true else match_vid in
  let match_iface := if line_has_iface line then true else match_iface in
  (match_vid, match_iface).

Definition scan_lines (lines : list string) : bool * bool :=
  fold_left line_step lines (false, false).

(** [!match_vid || !match_iface] negated: the entry goes on to [open]. *)
Definition accepts (lines : list string) : bool :=
  let '(match_vid, match_iface) := scan_lines lines in
  negb (negb match_vid || negb match_iface).

(** [e->d_name[0] == '.'] *)
Definition hidden (name : string) : bool :=
  match name with
  | String c _ => (c =? ".")%char
  | EmptyString => false
  end.

(** The [readdir] loop.  [success] and the log are the loop state; an
    entry read after [success] was set ends the loop unprocessed. *)
Fixpoint scan_loop (pkt : list Z) (entries : list hidraw_entry)
                   (success : bool) (log : list event) : bool * list event :=
  match entries with
  | [] => (success, log)
  | e :: rest =>
      if success then (success, log)
      else if hidden (d_name e) then scan_loop pkt rest success log
      else
        match uevent e with
        | None => scan_loop pkt rest success log
        | Some lines =>
            if negb (accepts lines) then scan_loop pkt rest success log
            else if negb (dev_open e) then
              scan_loop pkt rest success (log ++ [EvDevOpen (d_name e) false])
            else
              let ret := ioctl_ret e in
              let log := log ++ [ EvDevOpen (d_name e) true;
                                  EvIoctl (d_name e) pkt ret;
                                  EvDevClose (d_name e) ] in
              scan_loop pkt rest (if ret =? PKT_SIZE then true else success) log
        end
  end.

Definition MSG_FAILED : string :=
  "Failed. Try running as root or check udev rules.".

(** [send_packet]: the return value and what was done on the way. *)
Definition send_packet (w : World) (color_id brightness : Z)
  : Z * list event :=
  let pkt := build_packet color_id brightness in
  match hidraw w with
  | None => (-1, [EvStderr "opendir /sys/class/hidraw"])
  | Some entries =>
      let '(success, log) := scan_loop pkt entries false [] in
      if negb success then (-1, log ++ [EvStderr MSG_FAILED])
      else (0, log)
  end.

(** ** Command line *)

Fixpoint dec_digits (s : string) (acc : Z) : Z :=
  match s with
  | String c s' =>
      match dec_val c with
      | Some d => dec_digits s' (10 * acc + d)
      | None => acc
      end
  | EmptyString => acc
  end.

Definition LONG_MAX : Z := 2 ^ 63 - 1.
Definition LONG_MIN : Z := - 2 ^ 63.

(** [strtol(s, NULL, 10)] on an LP64 target: out-of-range values clamp. *)
Definition strtol10 (s : string) : Z :=
  let s := skip_space s in
  let '(neg, s) :=
    match s with
    | String "-"%char s' => (true, s')
    | String "+"%char s' => (false, s')
    | _ => (false, s)
    end in
  let v := dec_digits s 0 in
  Z.max LONG_MIN (Z.min LONG_MAX (if neg then - v else v)).

(** Conversion of a [long] to [int]. *)
Definition to_int (z : Z) : Z := (z + 2 ^ 31) mod 2 ^ 32 - 2 ^ 31.

(** [atoi], which glibc defines as [(int) strtol(s, NULL, 10)]. *)
Definition atoi (s : string) : Z := to_int (strtol10 s).

Definition nl : string := String (ascii_of_nat 10) EmptyString.

(** [printf("%d", z)] *)
Definition show_int (z : Z) : string :=
  DecimalString.NilZero.string_of_int (Z.to_int z).

Definition USAGE : string :=
  ("Usage:" ++ nl ++
   "  kb-color --color <color> [--brightness <0-100>]" ++ nl ++
   "  kb-color --brightness <0-100>" ++ nl ++
   "  kb-color --list" ++ nl ++
   nl ++ "Short forms: -c, -b" ++ nl ++
   "Colors: red, green, yellow, blue, orange, purple, white" ++ nl)%string.

(** The option loop of [main], from [argv[i]] on.  [inl msg] is an early
    [return 1] after printing [msg]; [inr s] is the merged setting. *)
Fixpoint parse_args (args : list string) (s : State) : string + State :=
  match args with
  | [] => inr s
  | a :: rest =>
      if streq a "--brightness" || streq a "-b" then
        match rest with
        | [] => inl ("Missing brightness value" ++ nl)%string
        | v :: rest' =>
            let b := atoi v in
            if (b <? BRIGHTNESS_MIN) || (b >? BRIGHTNESS_MAX) then
              inl ("Brightness must be " ++ show_int BRIGHTNESS_MIN ++ "-"
                     ++ show_int BRIGHTNESS_MAX ++ nl)%string
            else parse_args rest' (mkState (color_id s) (u8 b))
        end
      else if streq a "--color" || streq a "-c" then
        match rest with
        | [] => inl ("Missing color value" ++ nl)%string
        | v :: rest' =>
            let cid := color_id_from_name v in
            if cid =? 0 then inl ("Unknown color '" ++ v ++ "'" ++ nl)%string
            else parse_args rest' (mkState cid (brightness s))
        end
      else
        inl ("Unknown option '" ++ a ++ "'. Use --color and --brightness."
               ++ nl)%string
  end.

(** The name printed after a successful run: first row with that id. *)
Fixpoint color_name_of (tbl : list (string * Z)) (id : Z) : string :=
  match tbl with
  | [] => "?"
  | (n, i) :: tbl' => if i =? id then n else color_name_of tbl' id
  end.

Record Result : Type := mkResult {
  exit_code : Z;
  trace : list event;
  final : World
}.

Definition main (argv : list string) (w : World) : Result :=
  match argv with
  | [] | [_] => mkResult 1 [EvStderr USAGE] w
  | _ :: (a1 :: _) as args =>
      if streq a1 "--list" then
        mkResult 0 (map (fun row => EvStdout (fst row ++ nl)%string) COLORS) w
      else
        let s := load_state w in
        match parse_args args s with
        | inl msg => mkResult 1 [EvStderr msg] w
        | inr s =>
            let '(rc, log) := send_packet w (color_id s) (brightness s) in
            if rc <? 0 then mkResult 1 log w
            else
              let '(w', log') := save_state w (color_id s) (brightness s) in
              let ok := ("OK: color=" ++ color_name_of COLORS (color_id s)
                           ++ " brightness=" ++ show_int (brightness s)
                           ++ "%" ++ nl)%string in
              mkResult 0 (log ++ log' ++ [EvStdout ok]) w'
        end
  end.

(** Projections of a trace. *)
Definition is_store_event (ev : event) : bool :=
  match ev with
  | EvMkdir _ | EvOpenWrite _ _ | EvFwrite _ => true
  | _ => false
  end.

Fixpoint fwrites (log : list event) : list (list Z) :=
  match log with
  | [] => []
  | EvFwrite bytes :: log' => bytes :: fwrites log'
  | _ :: log' => fwrites log'
  end.

Fixpoint sent_packets (log : list event) : list (list Z) :=
  match log with
  | [] => []
  | EvIoctl _ pkt _ :: log' => pkt :: sent_packets log'
  | _ :: log' => sent_packets log'
  end.

(** Names of the device nodes a trace opens, writes to or closes. *)
Fixpoint touched (log : list event) : list string :=
  match log with
  | [] => []
  | EvDevOpen name _ :: log' => name :: touched log'
  | EvIoctl name _ _ :: log' => name :: touched log'
  | EvDevClose name :: log' => name :: touched log'
  | _ :: log' => touched log'
  end.

(** ** Predicates used in the statements *)

(** An entry the loop takes to [open]: visible, with a readable
    descriptor that has both facts. *)
Definition eligible (e : hidraw_entry) : bool :=
  negb (hidden (d_name e)) &&
  match uevent e with
  | Some lines => accepts lines
  | None => false
  end.

(** Events of the scan: device node actions, with the one packet. *)
Definition device_event (pkt : list Z) (ev : event) : Prop :=
  match ev with
  | EvDevOpen _ _ | EvDevClose _ => True
  | EvIoctl _ p _ => p = pkt
  | _ => False
  end.

(** ** A sample host: three nodes of the keyboard and one foreign node *)

Definition uevent_kbd (iface : string) : list string :=
  [ ("DRIVER=hid-generic" ++ nl)%string;
    ("HID_ID=0003:00001044:00007A3B" ++ nl)%string;
    ("HID_NAME=GIGABYTE USB-HID Keyboard" ++ nl)%string;
    ("HID_PHYS=usb-0000:00:14.0-8/" ++ iface ++ nl)%string ].

Definition uevent_mouse : list string :=
  [ ("HID_PHYS=usb-0000:00:14.0-2/input3" ++ nl)%string;
    ("HID_ID=0003:0000046D:0000C077" ++ nl)%string ].

Definition sample_entries : list hidraw_entry :=
  [ mkEntry "." None false (-1);
    mkEntry ".." None false (-1);
    mkEntry "hidraw0" (Some (uevent_kbd "input0")) true 9;
    mkEntry "hidraw1" (Some uevent_mouse) true 9;
    mkEntry "hidraw2" (Some (uevent_kbd "input3")) true 9;
    mkEntry "hidraw3" (Some (uevent_kbd "input1")) true 9 ].

Definition sample_world : World :=
  mkWorld None (Some "/home/user") None true (Some sample_entries).

Definition argv_blue_50 : list string :=
  ["kb-color"; "--color"; "blue"; "--brightness"; "50"].

(** ** Settings, node handles and single entries *)

(** A setting the command line would accept: a colour of the table and a
    brightness between [BRIGHTNESS_MIN] and [BRIGHTNESS_MAX]. *)
Definition valid_state (s : State) : Prop :=
  valid_color (color_id s) /\
  BRIGHTNESS_MIN <= brightness s <= BRIGHTNESS_MAX.

(** Nodes for which [open] returned a descriptor. *)
Fixpoint opened_ok (log : list event) : list string :=
  match log with
  | [] => []
  | EvDevOpen name true :: log' => name :: opened_ok log'
  | _ :: log' => opened_ok log'
  end.

(** Nodes handed to [close]. *)
Fixpoint closed (log : list event) : list string :=
  match log with
  | [] => []
  | EvDevClose name :: log' => name :: closed log'
  | _ :: log' => closed log'
  end.

(** What the loop body does with one eligible entry. *)
Definition entry_events (pkt : list Z) (e : hidraw_entry) : list event :=
  if dev_open e then
    [ EvDevOpen (d_name e) true; EvIoctl (d_name e) pkt (ioctl_ret e);
      EvDevClose (d_name e) ]
  else [ EvDevOpen (d_name e) false ].

(** The entry's node opens and takes the whole packet. *)
Definition entry_accepts (e : hidraw_entry) : bool :=
  dev_open e && (ioctl_ret e =? PKT_SIZE).

(** The four option spellings of the argument loop. *)
Definition is_brightness_opt (a : string) : bool :=
  streq a "--brightness" || streq a "-b".

Definition is_color_opt (a : string) : bool :=
  streq a "--color" || streq a "-c".

(** No digit follows the optional white space and sign: [strtol] converts
    nothing. *)
Definition nonnumeric (v : string) : bool :=
  match skip_space v with
  | EmptyString => true
  | String c rest =>
      if (c =? "-")%char || (c =? "+")%char then
        match rest with
        | EmptyString => true
        | String d _ => match dec_val d with None => true | Some _ => false end
        end
      else match dec_val c with None => true | Some _ => false end
  end.

(** The same world with the other answer of [fopen(path, "wb")]. *)
Definition set_writable (w : World) (flag : bool) : World :=
  mkWorld (env_xdg w) (env_home w) (state_file w) flag (hidraw w).

(** The value of [main] once the arguments are accepted. *)
Definition run_setting (w : World) (s : State) : Result :=
  if fst (send_packet w (color_id s) (brightness s)) <? 0 then
    mkResult 1 (snd (send_packet w (color_id s) (brightness s))) w
  else
    mkResult 0
      (snd (send_packet w (color_id s) (brightness s))
       ++ snd (save_state w (color_id s) (brightness s))
       ++ [EvStdout ("OK: color=" ++ color_name_of COLORS (color_id s)
                       ++ " brightness=" ++ show_int (brightness s)
                       ++ "%" ++ nl)%string])
      (fst (save_state w (color_id s) (brightness s))).

(** * Properties *)

(** ** Eight-bit arithmetic *)

Lemma u8_range z : is_u8 (u8 z).
Proof. unfold is_u8, u8. apply Z.mod_pos_bound. lia. Qed.

Lemma u8_small z : is_u8 z -> u8 z = z.
Proof. unfold is_u8, u8. intros H. apply Z.mod_small. exact H. Qed.

Lemma u8_add_l a b : u8 (u8 a + b) = u8 (a + b).
Proof. unfold u8. apply Zplus_mod_idemp_l. Qed.

(** The wrapping loop computes the plain sum reduced once at the end. *)
Lemma sum_loop_total bytes : forall s,
  sum_loop bytes (u8 s) = u8 (s + total bytes).
Proof.
  induction bytes as [|b bytes IH]; intros s; simpl.
  - now rewrite Z.add_0_r.
  - rewrite u8_add_l, IH. f_equal. lia.
Qed.

Lemma sum_loop_from_zero bytes : sum_loop bytes 0 = u8 (total bytes).
Proof. exact (sum_loop_total bytes 0). Qed.

Lemma total_app xs ys : total (xs ++ ys) = total xs + total ys.
Proof. induction xs as [|x xs IH]; simpl; lia. Qed.

(** ** Shape of the packet *)

Lemma packet_head_length c b : List.length (packet_head c b) = 8%nat.
Proof. reflexivity. Qed.

Lemma build_packet_length c b : List.length (build_packet c b) = 9%nat.
Proof. reflexivity. Qed.

Lemma build_packet_unfold c b :
  build_packet c b =
  packet_head c b ++ [u8 (PKT_CHECKSUM_INIT - u8 (total (packet_head c b)))].
Proof.
  unfold build_packet. cbv zeta.
  rewrite <- sum_loop_from_zero.
  rewrite firstn_all2; [reflexivity|].
  rewrite packet_head_length. unfold PKT_CHECKSUM_BYTES. lia.
Qed.


Lemma byte5_eq c b :
  byte_at 5 (build_packet c b) = u8 (b / PKT_BRIGHTNESS_DIV).
Proof. reflexivity. Qed.

Lemma byte6_eq c b :
  byte_at 6 (build_packet c b) =
  u8 (if b >? BRIGHTNESS_MIN then c else COLOR_ID_OFF).
Proof. reflexivity. Qed.

Lemma byte8_eq c b :
  byte_at 8 (build_packet c b) =
  u8 (PKT_CHECKSUM_INIT - u8 (total (packet_head c b))).
Proof. rewrite build_packet_unfold. reflexivity. Qed.

(** All nine bytes together: 255 modulo 256. *)
Lemma packet_total c b : total (build_packet c b) mod 256 = 255.
Proof.
  rewrite build_packet_unfold, total_app.
  set (t := total (packet_head c b)).
  unfold total, fold_right; rewrite Z.add_0_r.
  assert (Hs : is_u8 (u8 t)) by apply u8_range.
  rewrite (u8_small (PKT_CHECKSUM_INIT - u8 t))
    by (unfold is_u8, PKT_CHECKSUM_INIT in *; lia).
  unfold u8, PKT_CHECKSUM_INIT.
  rewrite (Z.div_mod t 256) at 1 by lia.
  replace (256 * (t / 256) + t mod 256 + (255 - t mod 256))
    with (255 + (t / 256) * 256) by lia.
  rewrite Z.mod_add by lia. reflexivity.
Qed.

(** ** The colour table *)

Lemma valid_color_cases c :
  valid_color c <-> c = 1 \/ c = 2 \/ c = 3 \/ c = 4 \/ c = 5 \/ c = 6 \/ c = 7.
Proof. unfold valid_color; simpl. intuition congruence. Qed.

Lemma valid_color_u8 c : valid_color c -> is_u8 c.
Proof. rewrite valid_color_cases. unfold is_u8. lia. Qed.

Lemma valid_colorb_spec c : valid_colorb c = true <-> valid_color c.
Proof.
  unfold valid_colorb, valid_color. rewrite existsb_exists. split.
  - intros [x [Hin Heq]]. apply Z.eqb_eq in Heq. now subst.
  - intros Hin. exists c. split; [exact Hin | apply Z.eqb_refl].
Qed.

(** Membership in the table, by evaluation. *)
Ltac in_table := apply valid_colorb_spec; reflexivity.

(** ** Brightness and colour bytes *)

(** C6: for a brightness between 0 and 100, byte 5 of the packet is the
    brightness halved with floor division; brightness 0 gives 0, 100 gives
    50 and 1 gives 0. *)
Theorem brightness_byte_is_half (c b : Z) :
  0 <= b <= 100 ->
  byte_at 5 (build_packet c b) = b / 2 /\
  byte_at 5 (build_packet c 0) = 0 /\
  byte_at 5 (build_packet c 100) = 50 /\
  byte_at 5 (build_packet c 1) = 0.
Proof.
  intros Hb. split; [|repeat split].
  rewrite byte5_eq. unfold PKT_BRIGHTNESS_DIV.
  apply u8_small. unfold is_u8.
  split.
  - apply Z.div_pos; lia.
  - apply Z.div_lt_upper_bound; lia.
Qed.

Lemma brightness_byte_is_half_witness :
  byte_at 5 (build_packet 4 37) = 18.
Proof.
  apply (brightness_byte_is_half 4 37). lia.
Defined.

(** C5: for a colour of the table and a brightness between 0 and 100,
    byte 6 is the colour's id when the brightness is positive; at
    brightness 0 byte 6 is the off id 5 and byte 5 is 0. *)
Theorem effective_color_rule (c b : Z) :
  valid_color c -> 0 <= b <= 100 ->
  (b > 0 -> byte_at 6 (build_packet c b) = c) /\
  (b = 0 -> byte_at 6 (build_packet c b) = 5 /\
            byte_at 5 (build_packet c b) = 0).
Proof.
  intros Hc Hb. split.
  - intros Hpos. rewrite byte6_eq. unfold BRIGHTNESS_MIN.
    destruct (Z.gtb_spec b 0) as [_|Hle]; [|lia].
    apply u8_small, valid_color_u8, Hc.
  - intros ->. split; reflexivity.
Qed.

Lemma effective_color_rule_witness :
  (60 > 0 -> byte_at 6 (build_packet 2 60) = 2) /\
  (0 = 0 -> byte_at 6 (build_packet 2 0) = 5 /\
            byte_at 5 (build_packet 2 0) = 0).
Proof.
  split.
  - apply (effective_color_rule 2 60); [in_table | lia].
  - apply (effective_color_rule 2 0); [in_table | lia].
Defined.

(** The off id is the id of one row of the table. *)
Lemma off_id_row name id :
  In (name, id) COLORS -> (id = COLOR_ID_OFF <-> name = "orange").
Proof.
  unfold COLOR_ID_OFF. simpl.
  intros [H|[H|[H|[H|[H|[H|[H|[]]]]]]]]; inversion H; subst;
    split; intros E; try discriminate E; reflexivity.
Qed.

(** C2, as the code has it: at brightness 0 byte 6 is the off id 5 for
    every colour of the table.  That id is the id of the table's row
    orange and of no other row, so byte 6 differs from the requested id
    for every colour except orange. *)
Theorem off_id_at_zero_brightness (c : Z) :
  valid_color c ->
  byte_at 6 (build_packet c 0) = COLOR_ID_OFF /\
  (forall name id, In (name, id) COLORS ->
     (id = COLOR_ID_OFF <-> name = "orange")) /\
  (byte_at 6 (build_packet c 0) = c <-> c = color_id_from_name "orange").
Proof.
  intros Hc. split; [reflexivity|]. split; [exact off_id_row|].
  change (byte_at 6 (build_packet c 0)) with 5.
  change (color_id_from_name "orange") with 5.
  split; intros E; symmetry; exact E.
Qed.

Lemma off_id_at_zero_brightness_witness :
  byte_at 6 (build_packet 1 0) = COLOR_ID_OFF /\
  (forall name id, In (name, id) COLORS ->
     (id = COLOR_ID_OFF <-> name = "orange")) /\
  (byte_at 6 (build_packet 1 0) = 1 <-> 1 = color_id_from_name "orange").
Proof.
  apply (off_id_at_zero_brightness 1). in_table.
Defined.

(** C2 as written fails: orange is a colour of the table, its id is the
    off id, and with orange requested at brightness 0 byte 6 equals the
    requested id. *)
Lemma off_id_collides_with_orange :
  ~ (forall c, valid_color c ->
       byte_at 6 (build_packet c 0) = COLOR_ID_OFF /\
       (forall c', valid_color c' -> COLOR_ID_OFF <> c') /\
       byte_at 6 (build_packet c 0) <> c).
Proof.
  intros H.
  assert (Horange : valid_color (color_id_from_name "orange"))
    by in_table.
  destruct (H _ Horange) as [_ [_ Hne]].
  apply Hne. reflexivity.
Qed.

(** ** Checksum *)



(** C3, as the code has it: for a packet built from a colour of the table
    and a brightness between 0 and 100, the sum of bytes 0 to 8 modulo 256
    is 255. *)
Theorem checksum_round_trip (c b : Z) :
  valid_color c -> 0 <= b <= 100 ->
  List.length (build_packet c b) = 9%nat /\
  firstn 8 (build_packet c b) = packet_head c b /\
  total (build_packet c b) mod 256 = 255.
Proof.
  intros _ _. split; [reflexivity|]. split; [reflexivity|].
  apply packet_total.
Qed.

Lemma checksum_round_trip_witness :
  List.length (build_packet 7 100) = 9%nat /\
  firstn 8 (build_packet 7 100) = packet_head 7 100 /\
  total (build_packet 7 100) mod 256 = 255.
Proof.
  apply (checksum_round_trip 7 100); [in_table | lia].
Defined.

(** C3 as written fails: the packet for blue at brightness 50 does not
    sum to zero. *)
Lemma checksum_round_trip_not_zero :
  valid_color 4 /\ 0 <= 50 <= 100 /\
  total (build_packet 4 50) mod 256 <> 0.
Proof.
  split; [in_table|]. split; [lia|]. discriminate.
Qed.

(** ** Discovery *)

(** The descriptor line the kernel writes for the keyboard, and lines
    that must not count. *)
Example sscanf_kernel_line :
  sscanf_hid_id "HID_ID=0003:00001044:00007A3B" = Some (3, 0x1044, 0x7a3b).
Proof. reflexivity. Qed.

Example sscanf_not_at_line_start :
  sscanf_hid_id "X_HID_ID=0003:00001044:00007A3B" = None.
Proof. reflexivity. Qed.

Example sscanf_two_fields_only :
  sscanf_hid_id "HID_ID=0003:00001044" = None.
Proof. reflexivity. Qed.

Example line_is_device_other_bus :
  line_is_device "HID_ID=0005:00001044:00007A3B" = false.
Proof. reflexivity. Qed.

Example strstr_label :
  strstr "HID_PHYS=usb-0000:00:14.0-8/input3" USB_INPUT_IFACE = true /\
  strstr "HID_PHYS=usb-0000:00:14.0-8/input1" USB_INPUT_IFACE = false.
Proof. split; reflexivity. Qed.

Lemma scan_lines_from lines : forall v i,
  fold_left line_step lines (v, i) =
  (v || existsb line_is_device lines, i || existsb line_has_iface lines).
Proof.
  induction lines as [|l lines IH]; intros v i; simpl.
  - now rewrite !orb_false_r.
  - rewrite IH.
    destruct (line_is_device l), (line_has_iface l), v, i; reflexivity.
Qed.

Lemma accepts_spec lines :
  accepts lines =
  existsb line_is_device lines && existsb line_has_iface lines.
Proof.
  unfold accepts, scan_lines. rewrite scan_lines_from. simpl.
  now rewrite negb_orb, !negb_involutive.
Qed.

Lemma existsb_perm {A} (f : A -> bool) (l l' : list A) :
  Permutation l l' -> existsb f l = existsb f l'.
Proof.
  induction 1 as [|x l l' _ IH|x y l|l l' l'' _ IH1 _ IH2]; simpl.
  - reflexivity.
  - now rewrite IH.
  - destruct (f x), (f y); reflexivity.
  - now rewrite IH1.
Qed.

Lemma existsb_none {A} (f : A -> bool) (l : list A) :
  (forall x, In x l -> f x = false) -> existsb f l = false.
Proof.
  intros H. destruct (existsb f l) eqn:E; [|reflexivity].
  apply existsb_exists in E. destruct E as [x [Hin Hx]].
  rewrite (H x Hin) in Hx. discriminate.
Qed.

Lemma touched_app l1 l2 : touched (l1 ++ l2) = touched l1 ++ touched l2.
Proof.
  induction l1 as [|ev l1 IH]; simpl; [reflexivity|].
  destruct ev; simpl; now rewrite ?IH.
Qed.

Lemma sent_packets_app l1 l2 :
  sent_packets (l1 ++ l2) = sent_packets l1 ++ sent_packets l2.
Proof.
  induction l1 as [|ev l1 IH]; simpl; [reflexivity|].
  destruct ev; simpl; now rewrite ?IH.
Qed.

Lemma fwrites_app l1 l2 : fwrites (l1 ++ l2) = fwrites l1 ++ fwrites l2.
Proof.
  induction l1 as [|ev l1 IH]; simpl; [reflexivity|].
  destruct ev; simpl; now rewrite ?IH.
Qed.

(** *** The readdir loop, for a fixed packet *)

Section ScanLoop.

Variable pkt : list Z.

(** The log only grows: the loop appends to what it was given. *)
Lemma scan_loop_log entries : forall success log,
  scan_loop pkt entries success log =
  (fst (scan_loop pkt entries success []),
   log ++ snd (scan_loop pkt entries success [])).
Proof.
  induction entries as [|e rest IH]; intros success log; simpl.
  - now rewrite app_nil_r.
  - destruct success; simpl; [now rewrite app_nil_r|].
    destruct (hidden (d_name e)); [apply IH|].
    destruct (uevent e) as [lines|]; [|apply IH].
    destruct (negb (accepts lines)); [apply IH|].
    destruct (negb (dev_open e)).
    + rewrite (IH false (log ++ _)), (IH false [_]). simpl.
      now rewrite <- app_assoc.
    + rewrite (IH _ (log ++ _)), (IH _ [_; _; _]). simpl.
      now rewrite <- app_assoc.
Qed.

Lemma scan_loop_skip e rest log :
  eligible e = false ->
  scan_loop pkt (e :: rest) false log = scan_loop pkt rest false log.
Proof.
  unfold eligible. intros H. simpl.
  destruct (hidden (d_name e)); [reflexivity|].
  destruct (uevent e) as [lines|]; [|reflexivity].
  simpl in H. now rewrite H.
Qed.

(** Every node the loop touches belongs to an eligible entry. *)
Lemma scan_loop_touched entries : forall success name,
  In name (touched (snd (scan_loop pkt entries success []))) ->
  exists e, In e entries /\ d_name e = name /\ eligible e = true.
Proof.
  induction entries as [|e rest IH]; intros success name; simpl.
  - intros [].
  - destruct success; simpl; [intros []|].
    assert (Hrest : forall s,
              In name (touched (snd (scan_loop pkt rest s []))) ->
              exists e', (e = e' \/ In e' rest) /\ d_name e' = name
                         /\ eligible e' = true).
    { intros s Hin. destruct (IH s name Hin) as [e' [H1 H2]].
      exists e'. split; [now right | exact H2]. }
    unfold eligible at 1.
    destruct (hidden (d_name e)) eqn:Hh; [apply Hrest|].
    destruct (uevent e) as [lines|] eqn:Hu; [|apply Hrest].
    destruct (accepts lines) eqn:Ha; simpl; [|apply Hrest].
    assert (He : eligible e = true)
      by (unfold eligible; now rewrite Hh, Hu, Ha).
    destruct (dev_open e); simpl; rewrite scan_loop_log; simpl;
      intros Hin.
    + destruct Hin as [E|[E|[E|Hin]]];
        try (exists e; split; [now left | split; [exact E | exact He]]).
      now apply Hrest in Hin.
    + destruct Hin as [E|Hin];
        try (exists e; split; [now left | split; [exact E | exact He]]).
      now apply Hrest in Hin.
Qed.

Lemma scan_loop_events entries : forall success,
  Forall (device_event pkt) (snd (scan_loop pkt entries success [])).
Proof.
  induction entries as [|e rest IH]; intros success; simpl.
  - constructor.
  - destruct success; simpl; [constructor|].
    destruct (hidden (d_name e)); [apply IH|].
    destruct (uevent e) as [lines|]; [|apply IH].
    destruct (negb (accepts lines)); [apply IH|].
    destruct (negb (dev_open e)); rewrite scan_loop_log; simpl;
      repeat (constructor; [simpl; auto|]); apply IH.
Qed.

Lemma device_events_not_store log :
  Forall (device_event pkt) log -> filter is_store_event log = [].
Proof.
  induction 1 as [|ev log Hev _ IH]; simpl; [reflexivity|].
  destruct ev; simpl in *; try contradiction; exact IH.
Qed.

Lemma device_events_sent log :
  Forall (device_event pkt) log ->
  forall p, In p (sent_packets log) -> p = pkt.
Proof.
  induction 1 as [|ev log Hev _ IH]; simpl; intros p Hin; [contradiction|].
  destruct ev; simpl in *; try contradiction; try (now apply IH).
  destruct Hin as [E|Hin]; [congruence | now apply IH].
Qed.

(** The loop ends with [success] set only after an ioctl returned the
    packet size. *)
Lemma scan_loop_success entries : forall success,
  fst (scan_loop pkt entries success []) = true ->
  success = true \/
  exists name,
    In (EvIoctl name pkt PKT_SIZE) (snd (scan_loop pkt entries success [])).
Proof.
  induction entries as [|e rest IH]; intros success; simpl.
  - intros H. now left.
  - destruct success; simpl; [now left|]. intros H. right.
    assert (Hrest : fst (scan_loop pkt rest false []) = true ->
                    exists name,
                      In (EvIoctl name pkt PKT_SIZE)
                         (snd (scan_loop pkt rest false []))).
    { intros H'. destruct (IH false H') as [E|E]; [discriminate | exact E]. }
    destruct (hidden (d_name e)); [now apply Hrest|].
    destruct (uevent e) as [lines|]; [|now apply Hrest].
    destruct (negb (accepts lines)); [now apply Hrest|].
    destruct (negb (dev_open e)); rewrite scan_loop_log in H |- *;
      simpl in H |- *.
    + destruct (Hrest H) as [name Hin]. exists name. now right.
    + destruct (Z.eqb_spec (ioctl_ret e) PKT_SIZE) as [E|NE].
      * exists (d_name e). right. left. now rewrite E.
      * destruct (Hrest H) as [name Hin]. exists name. now do 3 right.
Qed.

End ScanLoop.

Lemma accepts_iff lines :
  accepts lines = true <->
  (exists l, In l lines /\ line_is_device l = true) /\
  (exists l, In l lines /\ line_has_iface l = true).
Proof.
  rewrite accepts_spec, andb_true_iff, !existsb_exists. reflexivity.
Qed.

Lemma accepts_perm lines lines' :
  Permutation lines lines' -> accepts lines' = accepts lines.
Proof.
  intros HP. rewrite !accepts_spec.
  now rewrite (existsb_perm line_is_device _ _ HP),
              (existsb_perm line_has_iface _ _ HP).
Qed.

(** C7: a node is opened (and the transfer attempted) only for an entry
    whose descriptor has a line with the bus/vendor/product identity and a
    line with the interface label, whatever the order of the lines; an
    entry whose descriptor lacks one of the two is skipped and the scan
    goes on with the entries after it. *)
Theorem discovery_needs_both_facts (pkt : list Z) (entries : list hidraw_entry) :
  (forall name,
     In name (touched (snd (scan_loop pkt entries false []))) ->
     exists e lines,
       In e entries /\ d_name e = name /\ uevent e = Some lines /\
       (exists l, In l lines /\ line_is_device l = true) /\
       (exists l, In l lines /\ line_has_iface l = true)) /\
  (forall lines lines',
     Permutation lines lines' -> accepts lines' = accepts lines) /\
  (forall e rest lines log,
     uevent e = Some lines ->
     (forall l, In l lines -> line_is_device l = false) \/
     (forall l, In l lines -> line_has_iface l = false) ->
     scan_loop pkt (e :: rest) false log = scan_loop pkt rest false log) /\
  (forall e rest lines,
     hidden (d_name e) = false -> uevent e = Some lines ->
     (exists l, In l lines /\ line_is_device l = true) ->
     (exists l, In l lines /\ line_has_iface l = true) ->
     exists ok log,
       snd (scan_loop pkt (e :: rest) false []) =
       EvDevOpen (d_name e) ok :: log).
Proof.
  repeat split.
  - intros name Hin.
    destruct (scan_loop_touched pkt entries false name Hin)
      as [e [He [Hn Hel]]].
    unfold eligible in Hel. apply andb_true_iff in Hel.
    destruct Hel as [_ Hacc].
    destruct (uevent e) as [lines|] eqn:Hu; [|discriminate].
    apply accepts_iff in Hacc. destruct Hacc as [Hv Hi].
    exists e, lines. repeat split; assumption.
  - apply accepts_perm.
  - intros e rest lines log Hu Hmiss.
    apply scan_loop_skip. unfold eligible. rewrite Hu, accepts_spec.
    destruct Hmiss as [H|H]; rewrite (existsb_none _ _ H);
      now rewrite ?andb_false_r.
  - intros e rest lines Hh Hu Hv Hi.
    assert (Hacc : accepts lines = true) by (apply accepts_iff; now split).
    simpl. rewrite Hh, Hu, Hacc. simpl.
    destruct (dev_open e); simpl; rewrite scan_loop_log; simpl;
      eexists; eexists; reflexivity.
Qed.

Lemma discovery_needs_both_facts_witness :
  exists e lines,
    In e sample_entries /\ d_name e = "hidraw2" /\ uevent e = Some lines /\
    (exists l, In l lines /\ line_is_device l = true) /\
    (exists l, In l lines /\ line_has_iface l = true).
Proof.
  destruct (discovery_needs_both_facts (build_packet 4 50) sample_entries)
    as [Honly _].
  apply Honly. vm_compute. left. reflexivity.
Defined.

(** The sample host: only the node with both facts is touched, although
    two other nodes carry the identity and a foreign one the label. *)
Example sample_scan :
  scan_loop (build_packet 4 50) sample_entries false [] =
  (true, [ EvDevOpen "hidraw2" true;
           EvIoctl "hidraw2" [0; 8; 0; 1; 1; 25; 4; 1; 215] 9;
           EvDevClose "hidraw2" ]).
Proof. vm_compute. reflexivity. Qed.

(** ** What [send_packet] leaves in the trace *)

Lemma fwrites_filter log : fwrites (filter is_store_event log) = fwrites log.
Proof.
  induction log as [|ev log IH]; simpl; [reflexivity|].
  destruct ev; simpl; now rewrite ?IH.
Qed.

Lemma no_store_no_fwrites log :
  filter is_store_event log = [] -> fwrites log = [].
Proof. intros H. now rewrite <- fwrites_filter, H. Qed.

Lemma send_packet_spec w c b :
  Forall (device_event (build_packet c b))
         (filter (fun ev => match ev with EvStderr _ => false | _ => true end)
                 (snd (send_packet w c b))) /\
  filter is_store_event (snd (send_packet w c b)) = [] /\
  (fst (send_packet w c b) = -1 \/
   fst (send_packet w c b) = 0 /\
   exists name,
     In (EvIoctl name (build_packet c b) PKT_SIZE) (snd (send_packet w c b))).
Proof.
  unfold send_packet.
  destruct (hidraw w) as [entries|]; simpl.
  2:{ repeat split; [constructor | now left]. }
  pose proof (scan_loop_events (build_packet c b) entries false) as Hev.
  pose proof (scan_loop_success (build_packet c b) entries false) as Hok.
  destruct (scan_loop (build_packet c b) entries false []) as [success log].
  simpl in Hev, Hok.
  assert (Hkeep : filter (fun ev => match ev with
                                    | EvStderr _ => false | _ => true end) log
                  = log).
  { clear Hok. induction Hev as [|ev log Hd _ IH]; simpl; [reflexivity|].
    destruct ev; simpl in Hd; try contradiction; now rewrite IH. }
  destruct success; simpl.
  - rewrite Hkeep. split; [exact Hev|].
    split; [now apply device_events_not_store with (build_packet c b)|].
    right. split; [reflexivity|].
    destruct (Hok eq_refl) as [E|E]; [discriminate | exact E].
  - rewrite !filter_app; simpl. rewrite !app_nil_r, Hkeep.
    split; [exact Hev|].
    split; [now apply device_events_not_store with (build_packet c b)|].
    now left.
Qed.

(** ** The state store and [main] *)

Example atoi_samples :
  atoi "50" = 50 /\ atoi "  -7" = -7 /\ atoi "100%" = 100 /\ atoi "abc" = 0.
Proof. repeat split. Qed.

Example parse_rejects_101 :
  parse_args ["-b"; "101"] default_state
  = inl ("Brightness must be 0-100" ++ nl)%string.
Proof. reflexivity. Qed.

Example parse_rejects_uppercase :
  parse_args ["--color"; "Blue"] default_state
  = inl ("Unknown color 'Blue'" ++ nl)%string.
Proof. reflexivity. Qed.

Lemma save_state_cases w c b :
  (state_writable w = true /\
   save_state w c b =
   (set_state_file w [c; b],
    [EvMkdir (state_dir w); EvOpenWrite (state_path w) true; EvFwrite [c; b]]))
  \/
  (state_writable w = false /\
   save_state w c b =
   (w, [EvMkdir (state_dir w); EvOpenWrite (state_path w) false])).
Proof.
  unfold save_state. destruct (state_writable w); [left | right];
    split; reflexivity.
Qed.

(** A run of [main] either leaves the store alone, or it got a
    successful transfer out of [send_packet] and then called
    [save_state] once. *)
Lemma main_cases argv w :
  (final (main argv w) = w /\
   filter is_store_event (trace (main argv w)) = [] /\
   (exit_code (main argv w) = 1 \/
    exists prog a1 rest, argv = prog :: a1 :: rest /\ streq a1 "--list" = true))
  \/
  (exists s log name out,
     parse_args (tl argv) (load_state w) = inr s /\
     send_packet w (color_id s) (brightness s) = (0, log) /\
     In (EvIoctl name (build_packet (color_id s) (brightness s)) PKT_SIZE) log /\
     filter is_store_event log = [] /\
     main argv w =
     mkResult 0
       (log ++ snd (save_state w (color_id s) (brightness s)) ++ [EvStdout out])
       (fst (save_state w (color_id s) (brightness s)))).
Proof.
  destruct argv as [|prog [|a1 rest]];
    try (left; repeat split; now left).
  unfold main.
  destruct (streq a1 "--list") eqn:Hlist.
  { left. repeat split. right. now exists prog, a1, rest. }
  cbn [tl].
  destruct (parse_args (a1 :: rest) (load_state w)) as [msg|s].
  { left. repeat split. now left. }
  destruct (send_packet_spec w (color_id s) (brightness s))
    as [_ [Hquiet Hrc]].
  destruct (send_packet w (color_id s) (brightness s)) as [rc log] eqn:Hsend.
  simpl in Hquiet, Hrc.
  destruct Hrc as [-> | [-> [name Hin]]].
  - left. change (-1 <? 0) with true. cbv iota. cbn [final trace exit_code].
    repeat split; [exact Hquiet | now left].
  - right. change (0 <? 0) with false. cbv iota.
    exists s, log, name. eexists.
    split; [reflexivity|]. split; [exact Hsend|].
    split; [exact Hin|]. split; [exact Hquiet|].
    destruct (save_state w (color_id s) (brightness s)) as [w' log'].
    reflexivity.
Qed.

(** C9: the store is changed only after a successful transfer.  When
    [send_packet] reports failure [main] exits with 1, the state file is
    as before and no [save_state] action (mkdir, fopen, fwrite) is in the
    trace; the same holds whenever no ioctl returned the packet size, and
    whenever the exit code is not 0.  An [fwrite] in the trace is the only
    one, carries the whole two-byte record (colour id, then brightness) of
    the setting whose packet a device accepted before, and is what the
    state file then holds. *)
Theorem state_saved_only_after_transfer (argv : list string) (w : World) :
  (forall prog a1 rest s,
     argv = prog :: a1 :: rest -> streq a1 "--list" = false ->
     parse_args (a1 :: rest) (load_state w) = inr s ->
     fst (send_packet w (color_id s) (brightness s)) < 0 ->
     exit_code (main argv w) = 1 /\ final (main argv w) = w /\
     filter is_store_event (trace (main argv w)) = []) /\
  ((forall name pkt, ~ In (EvIoctl name pkt PKT_SIZE) (trace (main argv w))) ->
   final (main argv w) = w /\
   filter is_store_event (trace (main argv w)) = []) /\
  (exit_code (main argv w) <> 0 ->
   final (main argv w) = w /\
   filter is_store_event (trace (main argv w)) = []) /\
  (forall bytes,
     In bytes (fwrites (trace (main argv w))) ->
     exit_code (main argv w) = 0 /\
     fwrites (trace (main argv w)) = [bytes] /\
     state_file (final (main argv w)) = Some bytes /\
     exists s name log log',
       bytes = [color_id s; brightness s] /\
       trace (main argv w) = log ++ log' /\
       In (EvIoctl name (build_packet (color_id s) (brightness s)) PKT_SIZE)
          log /\
       fwrites log = [] /\ fwrites log' = [bytes]).
Proof.
  split; [|destruct (main_cases argv w)
             as [[Hw [Hq _]] | [s [log [name [out [Hp [Hs [Hin [Hq Hm]]]]]]]]]].
  - intros prog a1 rest s -> Hlist Hparse Hfail.
    unfold main. rewrite Hlist, Hparse.
    destruct (send_packet_spec w (color_id s) (brightness s))
      as [_ [Hquiet Hrc]].
    destruct (send_packet w (color_id s) (brightness s)) as [rc log].
    simpl in Hfail, Hquiet, Hrc.
    destruct Hrc as [-> | [-> _]]; [|lia].
    change (-1 <? 0) with true. cbv iota. cbn [final trace exit_code].
    repeat split. exact Hquiet.
  - split; [intros _; now split|]. split; [intros _; now split|].
    intros bytes Hin. apply no_store_no_fwrites in Hq.
    rewrite Hq in Hin. contradiction.
  - rewrite Hm. cbn [final trace exit_code].
    split; [|split].
    + intros Hno. exfalso.
      apply (Hno name (build_packet (color_id s) (brightness s))).
      apply in_or_app. left. exact Hin.
    + intros Hne. now contradiction Hne.
    + intros bytes Hb.
      apply no_store_no_fwrites in Hq.
      rewrite !fwrites_app, Hq in Hb. rewrite !fwrites_app, Hq.
      destruct (save_state_cases w (color_id s) (brightness s))
        as [[Hwr Hsave] | [Hwr Hsave]];
        rewrite Hsave in *; simpl in Hb |- *; [|contradiction].
      destruct Hb as [<- | []].
      repeat split.
      exists s, name, log. eexists.
      split; [reflexivity|]. split; [reflexivity|].
      split; [exact Hin|]. split; [exact Hq | reflexivity].
Qed.

Lemma state_saved_only_after_transfer_witness :
  exit_code (main argv_blue_50 sample_world) = 0 /\
  fwrites (trace (main argv_blue_50 sample_world)) = [[4; 50]] /\
  state_file (final (main argv_blue_50 sample_world)) = Some [4; 50].
Proof.
  destruct (state_saved_only_after_transfer argv_blue_50 sample_world)
    as [_ [_ [_ Hsave]]].
  destruct (Hsave [4; 50]) as [Hexit [Hone [Hfile _]]].
  - vm_compute. left. reflexivity.
  - split; [exact Hexit|]. split; [exact Hone | exact Hfile].
Defined.

(** With the transfer refused by every node nothing is saved. *)
Example refused_transfer_keeps_state :
  let w := mkWorld None None (Some [2; 80]) true
             (Some [mkEntry "hidraw0" (Some (uevent_kbd "input3")) true (-1)]) in
  main argv_blue_50 w =
  mkResult 1 [ EvDevOpen "hidraw0" true;
               EvIoctl "hidraw0" [0; 8; 0; 1; 1; 25; 4; 1; 215] (-1);
               EvDevClose "hidraw0"; EvStderr MSG_FAILED ] w.
Proof. vm_compute. reflexivity. Qed.

(** ** Loading *)

(** The paths on which nothing is read: the file cannot be opened, or it
    yields no byte.  The setting is the default, the id 7 of white (the
    last row of the table) with brightness 100. *)
Lemma load_state_default (w : World) :
  state_file w = None \/ state_file w = Some [] ->
  load_state w = mkState 7 100 /\
  last COLORS (EmptyString, 0) = ("white", 7) /\
  color_id_from_name "white" = 7.
Proof.
  intros Hfile. split; [|split; reflexivity].
  unfold load_state. destruct Hfile as [-> | ->]; reflexivity.
Qed.

(** C8: the code on a record of one byte.  With the state file absent
    and with it empty [load_state] returns the default (7, 100); with the
    single byte 01 in it the unchecked [fread] has replaced the colour id
    and the result is (1, 100), which is not the default. *)
Theorem load_state_one_byte :
  load_state (mkWorld None None None true None) = mkState 7 100 /\
  load_state (mkWorld None None (Some []) true None) = mkState 7 100 /\
  (List.length [1] < 2)%nat /\
  load_state (mkWorld None None (Some [1]) true None) = mkState 1 100 /\
  load_state (mkWorld None None (Some [1]) true None) <> mkState 7 100.
Proof.
  split; [reflexivity|]. split; [reflexivity|].
  split; [simpl; lia|]. split; [reflexivity | discriminate].
Qed.

(** ** The worked example: blue at brightness 50 *)

Lemma sent_packets_no_stderr log :
  sent_packets
    (filter (fun ev => match ev with EvStderr _ => false | _ => true end) log)
  = sent_packets log.
Proof.
  induction log as [|ev log IH]; simpl; [reflexivity|].
  destruct ev; simpl; now rewrite ?IH.
Qed.

Lemma send_packet_sent w c b p :
  In p (sent_packets (snd (send_packet w c b))) -> p = build_packet c b.
Proof.
  destruct (send_packet_spec w c b) as [Hev _].
  rewrite <- sent_packets_no_stderr.
  now apply device_events_sent.
Qed.

(** C1, as the code has it: for [--color blue --brightness 50] the
    colour id is 4 and the packet is 00 08 00 01 01 19 04 01 D7 (bytes 0
    to 7 add up to 0x28, and 0xFF - 0x28 = 0xD7); on a run that exits
    with 0 a device took exactly this packet, no other packet was sent,
    and when the state file can be opened for writing it holds the two
    bytes 04 32 afterwards. *)
Theorem blue_50_end_to_end (w : World) :
  exit_code (main argv_blue_50 w) = 0 ->
  state_writable w = true ->
  color_id_from_name "blue" = 4 /\
  build_packet 4 50 = [0x00; 0x08; 0x00; 0x01; 0x01; 0x19; 0x04; 0x01; 0xD7] /\
  total (firstn 8 (build_packet 4 50)) = 0x28 /\
  (exists name,
     In (EvIoctl name [0x00; 0x08; 0x00; 0x01; 0x01; 0x19; 0x04; 0x01; 0xD7] 9)
        (trace (main argv_blue_50 w))) /\
  (forall pkt,
     In pkt (sent_packets (trace (main argv_blue_50 w))) ->
     pkt = [0x00; 0x08; 0x00; 0x01; 0x01; 0x19; 0x04; 0x01; 0xD7]) /\
  fwrites (trace (main argv_blue_50 w)) = [[0x04; 0x32]] /\
  state_file (final (main argv_blue_50 w)) = Some [0x04; 0x32].
Proof.
  intros Hexit Hwr.
  split; [reflexivity|]. split; [reflexivity|]. split; [reflexivity|].
  destruct (main_cases argv_blue_50 w)
    as [[_ [_ [H1 | [prog [a1 [rest [Hargv Hlist]]]]]]]
       | [s [log [name [out [Hp [Hs [Hin [Hq Hm]]]]]]]]].
  - rewrite H1 in Hexit. discriminate.
  - inversion Hargv; subst. discriminate.
  - assert (Hs0 : parse_args (tl argv_blue_50) (load_state w)
                  = inr (mkState 4 50)) by reflexivity.
    rewrite Hs0 in Hp. inversion Hp; subst s. clear Hp Hs0.
    cbn [color_id brightness] in *.
    destruct (save_state_cases w 4 50) as [[_ Hsave] | [Hno _]];
      [|congruence].
    rewrite Hsave in Hm. cbn [fst snd] in Hm. rewrite Hm.
    cbn [trace final].
    apply no_store_no_fwrites in Hq.
    split; [|split; [|split]].
    + exists name. apply in_or_app. left. exact Hin.
    + intros pkt. rewrite sent_packets_app. cbn [sent_packets app].
      rewrite app_nil_r. intros Hp.
      apply (send_packet_sent w 4 50). rewrite Hs. exact Hp.
    + rewrite fwrites_app, Hq. reflexivity.
    + reflexivity.
Qed.

Lemma blue_50_end_to_end_witness :
  state_file (final (main argv_blue_50 sample_world)) = Some [0x04; 0x32].
Proof.
  apply (blue_50_end_to_end sample_world); reflexivity.
Defined.

(** C1 as written fails: the packet sent for blue at 50 ends in D7, not
    in DC. *)
Lemma blue_50_packet_not_DC :
  sent_packets (trace (main argv_blue_50 sample_world)) =
    [[0x00; 0x08; 0x00; 0x01; 0x01; 0x19; 0x04; 0x01; 0xD7]] /\
  build_packet (color_id_from_name "blue") 50 <>
    [0x00; 0x08; 0x00; 0x01; 0x01; 0x19; 0x04; 0x01; 0xDC].
Proof.
  split; [vm_compute; reflexivity | discriminate].
Qed.

(** * Further properties of the code *)

(** ** The packet *)

(** X1: whatever the two arguments, the packet has nine elements and each
    of them is a byte. *)
Theorem packet_is_nine_bytes (c b : Z) :
  List.length (build_packet c b) = 9%nat /\ Forall is_u8 (build_packet c b).
Proof.
  split; [reflexivity|].
  rewrite build_packet_unfold. apply Forall_app. split.
  - unfold packet_head.
    repeat (constructor; [first [apply u8_range | unfold is_u8; cbv; split; congruence]|]).
    constructor.
  - constructor; [apply u8_range | constructor].
Qed.

(** X2: at brightness 0 the requested colour leaves no mark on the
    packet: any two colour ids give the same nine bytes,
    00 08 00 01 01 00 05 01 EF. *)
Theorem zero_brightness_packet_ignores_color (c c' : Z) :
  build_packet c 0 = build_packet c' 0 /\
  build_packet c 0 = [0x00; 0x08; 0x00; 0x01; 0x01; 0x00; 0x05; 0x01; 0xEF].
Proof. split; reflexivity. Qed.

Lemma packet_head_positive c b :
  0 < b -> packet_head c b =
  [ PKT_REPORT_ID; PKT_CMD; PKT_BYTE2; PKT_BYTE3; PKT_BYTE4;
    u8 (b / PKT_BRIGHTNESS_DIV); u8 c; PKT_BYTE7 ].
Proof.
  intros Hb. unfold packet_head, BRIGHTNESS_MIN.
  destruct (Z.gtb_spec b 0) as [_|Hle]; [reflexivity | lia].
Qed.

Lemma half_is_u8 b : 0 <= b <= 100 -> is_u8 (b / 2).
Proof.
  intros Hb. unfold is_u8. split.
  - apply Z.div_pos; lia.
  - apply Z.div_lt_upper_bound; lia.
Qed.

(** X3: for colours of the table and positive brightness up to 100, two
    settings give the same packet exactly when the colours agree and the
    halved brightness values agree; so 2k and 2k+1 are sent alike and
    nothing else is confused. *)
Theorem packet_determines_setting (c c' b b' : Z) :
  valid_color c -> valid_color c' -> 0 < b <= 100 -> 0 < b' <= 100 ->
  (build_packet c b = build_packet c' b' <-> c = c' /\ b / 2 = b' / 2).
Proof.
  intros Hc Hc' Hb Hb'. split.
  - intros E.
    assert (E5 : byte_at 5 (build_packet c b) = byte_at 5 (build_packet c' b'))
      by now rewrite E.
    assert (E6 : byte_at 6 (build_packet c b) = byte_at 6 (build_packet c' b'))
      by now rewrite E.
    rewrite !byte5_eq in E5. rewrite !byte6_eq in E6.
    unfold PKT_BRIGHTNESS_DIV, BRIGHTNESS_MIN in *.
    rewrite !u8_small in E5 by (apply half_is_u8; lia).
    destruct (Z.gtb_spec b 0) as [_|Hle]; [|lia].
    destruct (Z.gtb_spec b' 0) as [_|Hle]; [|lia].
    rewrite !u8_small in E6 by now apply valid_color_u8.
    now split.
  - intros [-> Hhalf].
    rewrite !build_packet_unfold, !packet_head_positive by lia.
    unfold PKT_BRIGHTNESS_DIV. now rewrite Hhalf.
Qed.

Lemma packet_determines_setting_witness :
  build_packet 4 50 = build_packet 4 51 <-> 4 = 4 /\ 50 / 2 = 51 / 2.
Proof.
  apply (packet_determines_setting 4 4 50 51); try in_table; lia.
Defined.

(** X4: for a colour of the table and a positive brightness up to 100 the
    eight-bit sum never wraps, and the checksum byte is 244 minus the
    halved brightness minus the colour id. *)
Theorem checksum_closed_form (c b : Z) :
  valid_color c -> 0 < b <= 100 ->
  byte_at 8 (build_packet c b) = 244 - b / 2 - c.
Proof.
  intros Hc Hb. rewrite byte8_eq, packet_head_positive by lia.
  pose proof (half_is_u8 b ltac:(lia)) as Hh.
  pose proof (valid_color_u8 c Hc) as Hc8.
  apply valid_color_cases in Hc.
  unfold PKT_BRIGHTNESS_DIV.
  rewrite (u8_small (b / 2)) by exact Hh.
  rewrite (u8_small c) by exact Hc8.
  assert (Hhalf : b / 2 <= 50)
    by (apply Z.div_le_upper_bound; lia).
  unfold is_u8 in Hh.
  cbn [total fold_right].
  unfold PKT_REPORT_ID, PKT_CMD, PKT_BYTE2, PKT_BYTE3, PKT_BYTE4, PKT_BYTE7,
    PKT_CHECKSUM_INIT.
  rewrite (u8_small (0 + _)) by (unfold is_u8; lia).
  rewrite u8_small by (unfold is_u8; lia).
  lia.
Qed.

Lemma checksum_closed_form_witness :
  byte_at 8 (build_packet 7 100) = 244 - 100 / 2 - 7.
Proof.
  apply (checksum_closed_form 7 100); [in_table | lia].
Defined.

(** ** The colour table *)

Lemma streq_eq a b : streq a b = true <-> a = b.
Proof. apply String.eqb_eq. Qed.

(** The search returns 0 or the id of a row with that name. *)
Lemma lookup_color_hit tbl name :
  lookup_color tbl name = 0 \/ In (name, lookup_color tbl name) tbl.
Proof.
  induction tbl as [|[n id] tbl IH]; simpl; [now left|].
  destruct (streq n name) eqn:E.
  - apply streq_eq in E. subst n. right. now left.
  - destruct IH as [IH|IH]; [now left | right; now right].
Qed.

Lemma lookup_color_miss tbl name :
  ~ In name (map fst tbl) -> lookup_color tbl name = 0.
Proof.
  induction tbl as [|[n id] tbl IH]; simpl; intros Hnot; [reflexivity|].
  destruct (streq n name) eqn:E.
  - apply streq_eq in E. exfalso. apply Hnot. now left.
  - apply IH. intros Hin. apply Hnot. now right.
Qed.

Lemma COLORS_rows name id :
  In (name, id) COLORS <->
  (name = "red" /\ id = 1) \/ (name = "green" /\ id = 2) \/
  (name = "yellow" /\ id = 3) \/ (name = "blue" /\ id = 4) \/
  (name = "orange" /\ id = 5) \/ (name = "purple" /\ id = 6) \/
  (name = "white" /\ id = 7).
Proof.
  unfold COLORS. simpl. split.
  - intros H. repeat (destruct H as [H|H]; [inversion H; tauto|]).
    contradiction.
  - intros H. repeat (destruct H as [[-> ->]|H]; [tauto|]).
    destruct H as [-> ->]. tauto.
Qed.

(** X5: [color_id_from_name] returns 0 exactly for the names that are not
    in the table (the comparison is exact, so case matters); any other
    result is the id of the row with that name, a value from 1 to 7. *)
Theorem color_lookup_zero_iff_unknown (name : string) :
  (color_id_from_name name = 0 <-> ~ In name (map fst COLORS)) /\
  (color_id_from_name name <> 0 ->
   In (name, color_id_from_name name) COLORS /\
   1 <= color_id_from_name name <= 7).
Proof.
  unfold color_id_from_name.
  assert (Hrow : In (name, lookup_color COLORS name) COLORS ->
                 1 <= lookup_color COLORS name <= 7).
  { intros H. apply COLORS_rows in H. lia. }
  split; [split|].
  - intros Hz Hin.
    apply in_map_iff in Hin. destruct Hin as [[n id] [Hn Hin]].
    simpl in Hn. subst n.
    apply COLORS_rows in Hin.
    repeat (destruct Hin as [[-> _]|Hin]; [discriminate Hz|]).
    destruct Hin as [-> _]. discriminate Hz.
  - apply lookup_color_miss.
  - intros Hnz. destruct (lookup_color_hit COLORS name) as [H|H];
      [contradiction|]. split; [exact H | now apply Hrow].
Qed.

(** X6: name and id determine each other: for a row (name, id) of the
    table the lookup of [main]'s option loop maps the name to the id, and
    the search that prints the result maps the id back to the name. *)
Theorem color_name_id_round_trip (name : string) (id : Z) :
  In (name, id) COLORS ->
  color_id_from_name name = id /\ color_name_of COLORS id = name.
Proof.
  intros H. apply COLORS_rows in H.
  repeat (destruct H as [[-> ->]|H]; [split; reflexivity|]).
  destruct H as [-> ->]. split; reflexivity.
Qed.

Lemma color_name_id_round_trip_witness :
  color_id_from_name "purple" = 6 /\ color_name_of COLORS 6 = "purple".
Proof.
  apply (color_name_id_round_trip "purple" 6). vm_compute. tauto.
Defined.

(** ** The state store *)

Lemma append_assoc (a b c : string) :
  ((a ++ b) ++ c = a ++ (b ++ c))%string.
Proof.
  induction a as [|ch a IH]; simpl; [reflexivity | now rewrite IH].
Qed.

Lemma length_append (a b : string) :
  String.length (a ++ b) = (String.length a + String.length b)%nat.
Proof.
  induction a as [|ch a IH]; simpl; [reflexivity | now rewrite IH].
Qed.

Lemma take_chars_all (n : nat) (s : string) :
  (String.length s <= n)%nat -> take_chars n s = s.
Proof.
  revert n. induction s as [|ch s IH]; intros n Hn.
  - destruct n; reflexivity.
  - destruct n as [|n]; simpl in Hn; [lia|].
    simpl. rewrite IH by lia. reflexivity.
Qed.

Lemma take_chars_append (n : nat) (a b : string) :
  (n <= String.length a)%nat -> take_chars n (a ++ b) = take_chars n a.
Proof.
  revert n. induction a as [|ch a IH]; intros n Hn.
  - simpl in Hn. assert (n = 0%nat) by lia. subst n.
    destruct b; reflexivity.
  - destruct n as [|n]; [reflexivity|].
    simpl in Hn |- *. rewrite IH by lia. reflexivity.
Qed.

(** The formatted file path is the formatted directory path followed by
    a slash and the file name. *)
Lemma state_path_fmt_dir (w : World) :
  state_path_fmt w = (state_dir_fmt w ++ "/" ++ STATE_FILE_NAME)%string.
Proof.
  unfold state_path_fmt, state_dir_fmt.
  destruct (env_xdg w) as [xdg|]; now rewrite !append_assoc.
Qed.

(** X7: when the formatted file path is shorter than [PATH_MAX], the
    file [state_path] names lies directly in the directory
    [ensure_state_dir] creates; when the formatted directory path alone
    has [PATH_MAX - 1] characters or more, snprintf cuts both to the same
    text and the file path equals the directory path. *)
Theorem state_file_in_state_dir (w : World) :
  ((String.length (state_path_fmt w) < PATH_MAX)%nat ->
   state_path w = (state_dir w ++ "/" ++ STATE_FILE_NAME)%string) /\
  ((PATH_MAX - 1 <= String.length (state_dir_fmt w))%nat ->
   state_path w = state_dir w).
Proof.
  unfold state_path, state_dir, snprintf. rewrite state_path_fmt_dir.
  split; intros Hlen.
  - rewrite length_append in Hlen.
    rewrite !take_chars_all; [reflexivity | lia |].
    rewrite length_append. lia.
  - now apply take_chars_append.
Qed.

Lemma state_file_in_state_dir_witness :
  state_path sample_world
  = (state_dir sample_world ++ "/" ++ STATE_FILE_NAME)%string.
Proof.
  destruct (state_file_in_state_dir sample_world) as [Hfits _].
  apply Hfits. apply Nat.ltb_lt. reflexivity.
Defined.

(** X8: after a [save_state] whose [fopen] succeeded, [load_state] gives
    back the setting that was saved, and the hidraw registry and the
    environment are as before. *)
Theorem save_then_load (w : World) (c b : Z) :
  state_writable w = true ->
  load_state (fst (save_state w c b)) = mkState c b /\
  hidraw (fst (save_state w c b)) = hidraw w /\
  state_path (fst (save_state w c b)) = state_path w.
Proof.
  intros Hwr. unfold save_state. rewrite Hwr. repeat split.
Qed.

Lemma save_then_load_witness :
  load_state (fst (save_state sample_world 3 40)) = mkState 3 40 /\
  hidraw (fst (save_state sample_world 3 40)) = hidraw sample_world /\
  state_path (fst (save_state sample_world 3 40)) = state_path sample_world.
Proof.
  apply (save_then_load sample_world 3 40). reflexivity.
Defined.

(** ** The scan, entry by entry *)

Lemma closed_app l1 l2 : closed (l1 ++ l2) = closed l1 ++ closed l2.
Proof.
  induction l1 as [|ev l1 IH]; simpl; [reflexivity|].
  destruct ev; simpl; now rewrite ?IH.
Qed.

Lemma opened_ok_app l1 l2 :
  opened_ok (l1 ++ l2) = opened_ok l1 ++ opened_ok l2.
Proof.
  induction l1 as [|ev l1 IH]; simpl; [reflexivity|].
  destruct ev as [| | |name [|]| | | |]; simpl; now rewrite ?IH.
Qed.

Section ScanEntries.

Variable pkt : list Z.

(** Once [success] is set nothing more is read. *)
Lemma scan_loop_done entries log :
  scan_loop pkt entries true log = (true, log).
Proof. destruct entries; reflexivity. Qed.

(** One eligible entry: its events are appended and [success] becomes
    whether it accepted. *)
Lemma scan_loop_step e rest log :
  eligible e = true ->
  scan_loop pkt (e :: rest) false log =
  scan_loop pkt rest (entry_accepts e) (log ++ entry_events pkt e).
Proof.
  unfold eligible, entry_accepts, entry_events. intros H.
  apply andb_true_iff in H. destruct H as [Hh Ha].
  apply negb_true_iff in Hh. simpl. rewrite Hh.
  destruct (uevent e) as [lines|]; [|discriminate].
  rewrite Ha. simpl.
  destruct (dev_open e); simpl; [|reflexivity].
  destruct (ioctl_ret e =? PKT_SIZE); reflexivity.
Qed.

Lemma scan_loop_app es1 es2 : forall success log,
  scan_loop pkt (es1 ++ es2) success log =
  scan_loop pkt es2 (fst (scan_loop pkt es1 success log))
                    (snd (scan_loop pkt es1 success log)).
Proof.
  induction es1 as [|e es1 IH]; intros success log.
  - reflexivity.
  - destruct success.
    + now rewrite !scan_loop_done.
    + destruct (eligible e) eqn:He.
      * simpl app. rewrite !scan_loop_step by exact He. apply IH.
      * simpl app. rewrite !(scan_loop_skip pkt) by exact He. apply IH.
Qed.

(** With no eligible entry accepting, the loop runs to the end and has
    tried each eligible entry once, in order. *)
Lemma scan_loop_all_refuse entries : forall log,
  (forall e, In e entries -> eligible e = true -> entry_accepts e = false) ->
  scan_loop pkt entries false log =
  (false, log ++ flat_map (entry_events pkt) (filter eligible entries)).
Proof.
  induction entries as [|e rest IH]; intros log Hall.
  - simpl. now rewrite app_nil_r.
  - assert (Hrest : forall e', In e' rest -> eligible e' = true ->
                               entry_accepts e' = false)
      by (intros e' Hin; apply Hall; now right).
    simpl filter. destruct (eligible e) eqn:He.
    + rewrite scan_loop_step by exact He.
      rewrite (Hall e (or_introl eq_refl) He).
      rewrite IH by exact Hrest. simpl flat_map. now rewrite app_assoc.
    + rewrite (scan_loop_skip pkt) by exact He. now apply IH.
Qed.

(** The loop reports success exactly when an eligible entry accepts. *)
Lemma scan_loop_success_iff entries :
  fst (scan_loop pkt entries false []) = true <->
  exists e, In e entries /\ eligible e = true /\ entry_accepts e = true.
Proof.
  induction entries as [|e rest IH].
  - simpl. split; [discriminate | intros [e [[] _]]].
  - destruct (eligible e) eqn:He.
    + rewrite scan_loop_step by exact He.
      destruct (entry_accepts e) eqn:Ha.
      * rewrite scan_loop_done. simpl. split; [|reflexivity].
        intros _. exists e. repeat split; [now left | exact He | exact Ha].
      * rewrite (scan_loop_log pkt). simpl fst. rewrite IH. split.
        -- intros [e' [Hin H]]. exists e'. split; [now right | exact H].
        -- intros [e' [[<-|Hin] [He' Ha']]]; [congruence|].
           exists e'. now split.
    + rewrite (scan_loop_skip pkt) by exact He. rewrite IH. split.
      * intros [e' [Hin H]]. exists e'. split; [now right | exact H].
      * intros [e' [[<-|Hin] [He' Ha']]]; [congruence|].
        exists e'. now split.
Qed.

Lemma scan_loop_failure entries :
  fst (scan_loop pkt entries false []) = false ->
  forall e, In e entries -> eligible e = true -> entry_accepts e = false.
Proof.
  intros Hf e Hin He. destruct (entry_accepts e) eqn:Ha; [|reflexivity].
  assert (Ht : fst (scan_loop pkt entries false []) = true)
    by (apply scan_loop_success_iff; now exists e).
  congruence.
Qed.

(** Handles: what was opened is what was closed. *)
Lemma scan_loop_closed entries : forall success,
  closed (snd (scan_loop pkt entries success [])) =
  opened_ok (snd (scan_loop pkt entries success [])).
Proof.
  induction entries as [|e rest IH]; intros success.
  - reflexivity.
  - destruct success; [now rewrite scan_loop_done|].
    destruct (eligible e) eqn:He.
    + rewrite scan_loop_step by exact He.
      rewrite (scan_loop_log pkt). simpl snd.
      rewrite closed_app, opened_ok_app, IH. f_equal.
      unfold entry_events. destruct (dev_open e); reflexivity.
    + rewrite (scan_loop_skip pkt) by exact He. apply IH.
Qed.

End ScanEntries.

(** X9: the scan stops at the first node that accepts.  When the
    eligible entries before an eligible, accepting entry all refuse, the
    loop reports success and its log is the attempts on those earlier
    entries, in order, followed by open, ioctl and close of the accepting
    one; the entries after it contribute nothing, whatever they are. *)
Theorem scan_stops_at_first_success
    (pkt : list Z) (es1 es2 : list hidraw_entry) (e : hidraw_entry) :
  (forall e', In e' es1 -> eligible e' = true -> entry_accepts e' = false) ->
  eligible e = true -> entry_accepts e = true ->
  scan_loop pkt (es1 ++ e :: es2) false [] =
  (true,
   flat_map (entry_events pkt) (filter eligible es1) ++
   [ EvDevOpen (d_name e) true; EvIoctl (d_name e) pkt PKT_SIZE;
     EvDevClose (d_name e) ]).
Proof.
  intros Hbefore He Ha.
  rewrite scan_loop_app, (scan_loop_all_refuse pkt es1 [] Hbefore).
  cbn [fst snd app].
  rewrite scan_loop_step by exact He. rewrite Ha, scan_loop_done.
  unfold entry_events, entry_accepts in *.
  apply andb_true_iff in Ha. destruct Ha as [Ho Hr].
  apply Z.eqb_eq in Hr. now rewrite Ho, Hr.
Qed.

Lemma scan_stops_at_first_success_witness :
  scan_loop (build_packet 4 50)
    ([ mkEntry "hidraw0" (Some (uevent_kbd "input3")) false 0;
       mkEntry "hidraw1" (Some (uevent_kbd "input3")) true (-1) ]
     ++ mkEntry "hidraw2" (Some (uevent_kbd "input3")) true 9
     :: [ mkEntry "hidraw3" (Some (uevent_kbd "input3")) true 9 ])
    false [] =
  (true,
   flat_map (entry_events (build_packet 4 50))
     (filter eligible
        [ mkEntry "hidraw0" (Some (uevent_kbd "input3")) false 0;
          mkEntry "hidraw1" (Some (uevent_kbd "input3")) true (-1) ]) ++
   [ EvDevOpen "hidraw2" true; EvIoctl "hidraw2" (build_packet 4 50) PKT_SIZE;
     EvDevClose "hidraw2" ]).
Proof.
  apply (scan_stops_at_first_success (build_packet 4 50)
           [ mkEntry "hidraw0" (Some (uevent_kbd "input3")) false 0;
             mkEntry "hidraw1" (Some (uevent_kbd "input3")) true (-1) ]
           [ mkEntry "hidraw3" (Some (uevent_kbd "input3")) true 9 ]
           (mkEntry "hidraw2" (Some (uevent_kbd "input3")) true 9)).
  - intros e' [<- | [<- | []]] _; reflexivity.
  - reflexivity.
  - reflexivity.
Defined.

(** X10: a failed scan has tried every eligible entry exactly once, in
    directory order, and none twice: when no eligible entry accepts, the
    loop ends without success and its log is the concatenation of one
    attempt per eligible entry. *)
Theorem failed_scan_tries_each_once (pkt : list Z) (entries : list hidraw_entry) :
  (forall e, In e entries -> eligible e = true -> entry_accepts e = false) ->
  scan_loop pkt entries false [] =
  (false, flat_map (entry_events pkt) (filter eligible entries)).
Proof.
  intros Hall. now rewrite (scan_loop_all_refuse pkt entries [] Hall).
Qed.

Lemma failed_scan_tries_each_once_witness :
  scan_loop (build_packet 1 10)
    [ mkEntry "hidraw0" (Some (uevent_kbd "input3")) false 0;
      mkEntry "hidraw1" (Some uevent_mouse) true 9;
      mkEntry "hidraw2" (Some (uevent_kbd "input3")) true 4 ] false [] =
  (false,
   flat_map (entry_events (build_packet 1 10))
     (filter eligible
        [ mkEntry "hidraw0" (Some (uevent_kbd "input3")) false 0;
          mkEntry "hidraw1" (Some uevent_mouse) true 9;
          mkEntry "hidraw2" (Some (uevent_kbd "input3")) true 4 ])).
Proof.
  apply (failed_scan_tries_each_once (build_packet 1 10)).
  intros e [<- | [<- | [<- | []]]]; vm_compute; congruence.
Defined.

(** ** [send_packet] as a whole *)

(** X11: [send_packet] returns 0 or -1, and it returns 0 exactly when
    the registry can be read and holds an entry that is eligible (visible,
    descriptor readable, both facts present) and whose node opens and
    takes all nine bytes. *)
Theorem send_packet_zero_iff (w : World) (c b : Z) :
  (fst (send_packet w c b) = 0 \/ fst (send_packet w c b) = -1) /\
  (fst (send_packet w c b) = 0 <->
   exists entries e,
     hidraw w = Some entries /\ In e entries /\
     eligible e = true /\ entry_accepts e = true).
Proof.
  unfold send_packet. destruct (hidraw w) as [entries|].
  2:{ simpl. split; [now right|]. split; [discriminate|].
      intros [es [e [H _]]]. discriminate. }
  pose proof (scan_loop_success_iff (build_packet c b) entries) as Hiff.
  destruct (scan_loop (build_packet c b) entries false []) as [success log].
  simpl in Hiff. destruct success; simpl.
  - split; [now left|]. split; [|reflexivity].
    intros _. destruct Hiff as [Hex _].
    destruct (Hex eq_refl) as [e He]. now exists entries, e.
  - split; [now right|]. split; [discriminate|].
    intros [es [e [Hes He]]]. inversion Hes; subst es.
    destruct Hiff as [_ Hback].
    assert (Habs : false = true) by (apply Hback; now exists e).
    discriminate.
Qed.

(** X12: every node [send_packet] opened it also closed, in the same
    order, whether the transfer went through or not and whether the call
    succeeded or not. *)
Theorem send_packet_closes_what_it_opens (w : World) (c b : Z) :
  closed (snd (send_packet w c b)) = opened_ok (snd (send_packet w c b)).
Proof.
  unfold send_packet. destruct (hidraw w) as [entries|]; [|reflexivity].
  pose proof (scan_loop_closed (build_packet c b) entries false) as Hc.
  destruct (scan_loop (build_packet c b) entries false []) as [success log].
  simpl in Hc. destruct success; simpl; [exact Hc|].
  rewrite closed_app, opened_ok_app, Hc. reflexivity.
Qed.

(** X13: a directory entry whose name begins with a dot is never opened,
    written to or closed. *)
Theorem hidden_entries_untouched (w : World) (c b : Z) (name : string) :
  In name (touched (snd (send_packet w c b))) -> hidden name = false.
Proof.
  unfold send_packet. destruct (hidraw w) as [entries|]; [|intros []].
  pose proof (scan_loop_touched (build_packet c b) entries false name) as Ht.
  destruct (scan_loop (build_packet c b) entries false []) as [success log].
  simpl in Ht. intros Hin.
  assert (Hlog : In name (touched log)).
  { destruct success; simpl in Hin; [exact Hin|].
    rewrite touched_app in Hin. simpl in Hin. now rewrite app_nil_r in Hin. }
  destruct (Ht Hlog) as [e [_ [Hn He]]].
  unfold eligible in He. apply andb_true_iff in He. destruct He as [Hh _].
  apply negb_true_iff in Hh. now rewrite Hn in Hh.
Qed.

Lemma hidden_entries_untouched_witness : hidden "hidraw2" = false.
Proof.
  apply (hidden_entries_untouched sample_world 4 50 "hidraw2").
  vm_compute. left. reflexivity.
Defined.

(** ** The two line tests *)

Lemma prefix_iff (p s : string) :
  String.prefix p s = true <-> exists post, s = (p ++ post)%string.
Proof.
  revert s. induction p as [|a p IH]; intros s.
  - simpl. destruct s; split; intros; try reflexivity; eexists; reflexivity.
  - destruct s as [|b s]; simpl.
    + split; [discriminate | intros [post H]; discriminate].
    + destruct (ascii_dec a b) as [->|Hne].
      * rewrite IH. split; intros [post H]; exists post.
        -- now rewrite H.
        -- now inversion H.
      * split; [discriminate|]. intros [post H]. inversion H. congruence.
Qed.

Lemma strstr_nil needle :
  strstr "" needle = if String.prefix needle "" then true else false.
Proof. reflexivity. Qed.

Lemma strstr_cons ch hay needle :
  strstr (String ch hay) needle =
  if String.prefix needle (String ch hay) then true else strstr hay needle.
Proof. reflexivity. Qed.

Lemma strstr_iff (hay needle : string) :
  strstr hay needle = true <->
  exists pre post, hay = (pre ++ needle ++ post)%string.
Proof.
  induction hay as [|ch hay IH].
  - rewrite strstr_nil.
    destruct (String.prefix needle "") eqn:Hp.
    + split; [|reflexivity]. intros _.
      apply prefix_iff in Hp. destruct Hp as [post Hp].
      exists EmptyString, post. exact Hp.
    + split; [discriminate|]. intros [pre [post H]].
      destruct pre; [|discriminate].
      assert (Ht : String.prefix needle "" = true)
        by (apply prefix_iff; now exists post).
      congruence.
  - rewrite strstr_cons.
    destruct (String.prefix needle (String ch hay)) eqn:Hp.
    + split; [|reflexivity]. intros _.
      apply prefix_iff in Hp. destruct Hp as [post Hp].
      exists EmptyString, post. exact Hp.
    + rewrite IH. split.
      * intros [pre [post H]]. exists (String ch pre), post.
        simpl. now rewrite H.
      * intros [pre [post H]]. destruct pre as [|ch' pre].
        -- assert (Ht : String.prefix needle (String ch hay) = true)
             by (apply prefix_iff; now exists post).
           congruence.
        -- simpl in H. inversion H. now exists pre, post.
Qed.

(** X14: the interface test holds for a line exactly when the text
    input3 occurs somewhere in it; it is not tied to a key or to the end
    of the line, so a line ending in input30 passes as well. *)
Theorem iface_test_is_substring (line : string) :
  (line_has_iface line = true <->
   exists pre post, line = (pre ++ "input3" ++ post)%string) /\
  (forall pre post, line_has_iface (pre ++ "input3" ++ post)%string = true).
Proof.
  unfold line_has_iface, USB_INPUT_IFACE. split.
  - apply strstr_iff.
  - intros pre post. apply strstr_iff. now exists pre, post.
Qed.

Lemma scan_literal_some lit : forall s rest,
  scan_literal lit s = Some rest -> s = (lit ++ rest)%string.
Proof.
  induction lit as [|a lit IH]; intros s rest; simpl.
  - intros H. now inversion H.
  - destruct s as [|b s]; [discriminate|].
    destruct (Ascii.eqb_spec a b) as [->|Hne]; [|discriminate].
    intros H. now rewrite (IH s rest H).
Qed.

(** X15: the identity test passes the line the kernel writes for the
    keyboard whatever follows the last digit (fgets leaves the newline
    in), and it passes no line that does not begin with HID_ID=. *)
Theorem identity_test_on_kernel_line (line rest : string) :
  line_is_device ("HID_ID=0003:00001044:00007A3B" ++ rest)%string = true /\
  (line_is_device line = true -> String.prefix "HID_ID=" line = true).
Proof.
  split; [reflexivity|].
  unfold line_is_device, sscanf_hid_id.
  destruct (scan_literal "HID_ID=" line) as [s|] eqn:Hlit; [|discriminate].
  intros _. apply prefix_iff. exists s.
  now apply scan_literal_some.
Qed.

(** ** The option loop *)

(** Options come in pairs: induction two arguments at a time. *)
Lemma args_pair_ind (P : list string -> Prop) :
  P [] -> (forall a, P [a]) ->
  (forall a v rest, P rest -> P (a :: v :: rest)) ->
  forall args, P args.
Proof.
  intros Hnil Hone Hpair.
  assert (H : forall args, P args /\ forall a, P (a :: args)).
  { induction args as [|v rest [IH1 IH2]].
    - split; [exact Hnil | exact Hone].
    - split; [apply IH2 | intros a; apply Hpair, IH1]. }
  intros args. apply H.
Qed.

Lemma parse_args_single a s : exists msg, parse_args [a] s = inl msg.
Proof.
  simpl. destruct (streq a "--brightness" || streq a "-b");
    [eexists; reflexivity|].
  destruct (streq a "--color" || streq a "-c"); eexists; reflexivity.
Qed.

(** One round of the loop. *)
Lemma parse_args_pair a v rest s :
  parse_args (a :: v :: rest) s =
  if is_brightness_opt a then
    if (atoi v <? BRIGHTNESS_MIN) || (atoi v >? BRIGHTNESS_MAX) then
      inl ("Brightness must be " ++ show_int BRIGHTNESS_MIN ++ "-"
             ++ show_int BRIGHTNESS_MAX ++ nl)%string
    else parse_args rest (mkState (color_id s) (u8 (atoi v)))
  else if is_color_opt a then
    if color_id_from_name v =? 0 then
      inl ("Unknown color '" ++ v ++ "'" ++ nl)%string
    else parse_args rest (mkState (color_id_from_name v) (brightness s))
  else
    inl ("Unknown option '" ++ a ++ "'. Use --color and --brightness."
           ++ nl)%string.
Proof. reflexivity. Qed.

Lemma brightness_in_range b :
  ((b <? BRIGHTNESS_MIN) || (b >? BRIGHTNESS_MAX)) = false ->
  0 <= b <= 100 /\ u8 b = b.
Proof.
  unfold BRIGHTNESS_MIN, BRIGHTNESS_MAX. intros H.
  apply orb_false_iff in H. destruct H as [H1 H2].
  apply Z.ltb_ge in H1.
  destruct (Z.gtb_spec b 100) as [|H3]; [discriminate|].
  split; [lia|]. apply u8_small. unfold is_u8. lia.
Qed.

Lemma color_lookup_valid v :
  (color_id_from_name v =? 0) = false -> valid_color (color_id_from_name v).
Proof.
  intros H. apply Z.eqb_neq in H. unfold color_id_from_name in *.
  destruct (lookup_color_hit COLORS v) as [Hz|Hin]; [contradiction|].
  unfold valid_color. apply in_map_iff.
  exists (v, lookup_color COLORS v). now split.
Qed.

(** Each field of an accepted result is either the one the loop started
    with or one the loop checked. *)
Lemma parse_args_fields (args : list string) (s s' : State) :
  parse_args args s = inr s' ->
  (color_id s' = color_id s \/ valid_color (color_id s')) /\
  (brightness s' = brightness s \/ 0 <= brightness s' <= 100).
Proof.
  revert s. induction args as [|a|a v rest IH] using args_pair_ind;
    intros s Hp.
  - simpl in Hp. inversion Hp; subst. split; now left.
  - destruct (parse_args_single a s) as [msg Hm]. congruence.
  - rewrite parse_args_pair in Hp.
    destruct (is_brightness_opt a).
    + destruct ((atoi v <? BRIGHTNESS_MIN) || (atoi v >? BRIGHTNESS_MAX))
        eqn:Hr; [discriminate|].
      apply brightness_in_range in Hr. destruct Hr as [Hr Hu].
      destruct (IH _ Hp) as [Hc Hb]. cbn [color_id brightness] in Hc, Hb.
      split; [exact Hc|].
      destruct Hb as [Hb|Hb]; [|now right].
      right. rewrite Hb, Hu. exact Hr.
    + destruct (is_color_opt a); [|discriminate].
      destruct (color_id_from_name v =? 0) eqn:Hc0; [discriminate|].
      destruct (IH _ Hp) as [Hc Hb]. cbn [color_id brightness] in Hc, Hb.
      split; [|exact Hb].
      destruct Hc as [Hc|Hc]; [|now right].
      right. rewrite Hc. now apply color_lookup_valid.
Qed.

Lemma parse_args_valid_state (args : list string) (s s' : State) :
  valid_state s -> parse_args args s = inr s' -> valid_state s'.
Proof.
  intros [Hc Hb] Hp. destruct (parse_args_fields args s s' Hp) as [Hc' Hb'].
  split.
  - destruct Hc' as [->|Hc']; assumption.
  - destruct Hb' as [->|Hb']; assumption.
Qed.

(** X16: the option loop keeps a setting valid: started from a colour of
    the table and a brightness between 0 and 100, every setting it returns
    is again of that kind. *)
Theorem parse_args_keeps_valid (args : list string) (s s' : State) :
  valid_state s -> parse_args args s = inr s' -> valid_state s'.
Proof.
  intros Hs Hp. destruct Hs as [Hc Hb].
  destruct (parse_args_fields args s s' Hp) as [Hc' Hb'].
  unfold valid_state. split.
  - destruct Hc' as [E|Hc']; [rewrite E|]; assumption.
  - destruct Hb' as [E|Hb']; [rewrite E|]; assumption.
Qed.

Lemma parse_args_keeps_valid_witness :
  valid_state (mkState 1 20).
Proof.
  apply (parse_args_keeps_valid ["-c"; "red"; "-b"; "20"] default_state).
  - split; [in_table | vm_compute; split; discriminate].
  - reflexivity.
Defined.

(** X17: accepted argument lists compose: when a first list of options
    is accepted and yields a setting, the loop on that list followed by
    further arguments behaves as the loop on the further arguments started
    from that setting; so a later option overrides an earlier one. *)
Theorem parse_args_app (args1 args2 : list string) (s s1 : State) :
  parse_args args1 s = inr s1 ->
  parse_args (args1 ++ args2) s = parse_args args2 s1.
Proof.
  revert s. induction args1 as [|a|a v rest IH] using args_pair_ind;
    intros s Hp.
  - simpl in Hp. inversion Hp; now subst.
  - destruct (parse_args_single a s) as [msg Hm]. congruence.
  - simpl app. rewrite parse_args_pair in Hp |- *.
    destruct (is_brightness_opt a).
    + destruct ((atoi v <? BRIGHTNESS_MIN) || (atoi v >? BRIGHTNESS_MAX));
        [discriminate | now apply IH].
    + destruct (is_color_opt a); [|discriminate].
      destruct (color_id_from_name v =? 0); [discriminate | now apply IH].
Qed.

Lemma parse_args_app_witness :
  parse_args (["-b"; "10"] ++ ["-b"; "90"]) default_state =
  parse_args ["-b"; "90"] (mkState 7 10).
Proof.
  apply (parse_args_app ["-b"; "10"] ["-b"; "90"] default_state (mkState 7 10)).
  reflexivity.
Defined.

(** X18: what is not mentioned is kept: an accepted argument list with
    no brightness option returns the brightness it was started with, and
    one with no colour option returns the colour id it was started
    with. *)
Theorem parse_args_keeps_unmentioned (args : list string) (s s' : State) :
  parse_args args s = inr s' ->
  ((forall a, In a args -> is_brightness_opt a = false) ->
   brightness s' = brightness s) /\
  ((forall a, In a args -> is_color_opt a = false) ->
   color_id s' = color_id s).
Proof.
  revert s. induction args as [|a|a v rest IH] using args_pair_ind;
    intros s Hp.
  - simpl in Hp. inversion Hp; subst. now split.
  - destruct (parse_args_single a s) as [msg Hm]. congruence.
  - rewrite parse_args_pair in Hp.
    destruct (is_brightness_opt a) eqn:Hb.
    + destruct ((atoi v <? BRIGHTNESS_MIN) || (atoi v >? BRIGHTNESS_MAX));
        [discriminate|].
      destruct (IH _ Hp) as [_ IHc]. split.
      * intros Hno. rewrite (Hno a (or_introl eq_refl)) in Hb. discriminate.
      * intros Hno. rewrite IHc; [reflexivity|].
        intros a' Hin. apply Hno. now do 2 right.
    + destruct (is_color_opt a) eqn:Hc; [|discriminate].
      destruct (color_id_from_name v =? 0); [discriminate|].
      destruct (IH _ Hp) as [IHb _]. split.
      * intros Hno. rewrite IHb; [reflexivity|].
        intros a' Hin. apply Hno. now do 2 right.
      * intros Hno. rewrite (Hno a (or_introl eq_refl)) in Hc. discriminate.
Qed.

Lemma parse_args_keeps_unmentioned_witness :
  ((forall a, In a ["--color"; "green"] -> is_brightness_opt a = false) ->
   brightness (mkState 2 35) = brightness (mkState 6 35)) /\
  ((forall a, In a ["--color"; "green"] -> is_color_opt a = false) ->
   color_id (mkState 2 35) = color_id (mkState 6 35)).
Proof.
  apply (parse_args_keeps_unmentioned ["--color"; "green"] (mkState 6 35)).
  reflexivity.
Defined.

(** ** Brightness values *)

Lemma dec_digits_stop d rest acc :
  dec_val d = None -> dec_digits (String d rest) acc = acc.
Proof. intros H. simpl. now rewrite H. Qed.

Lemma atoi_nonnumeric v : nonnumeric v = true -> atoi v = 0.
Proof.
  unfold nonnumeric, atoi, strtol10.
  destruct (skip_space v) as [|c rest]; [reflexivity|].
  destruct c as [b0 b1 b2 b3 b4 b5 b6 b7].
  destruct b0, b1, b2, b3, b4, b5, b6, b7; intros H;
    first
      [ reflexivity
      | vm_compute in H; discriminate H
      | destruct rest as [|d r]; [reflexivity|];
        destruct (dec_val d) eqn:Hd;
        [ vm_compute in H; discriminate H
        | cbv beta iota zeta; rewrite (dec_digits_stop d r 0 Hd);
          reflexivity ] ].
Qed.

(** X19: a brightness argument in which no digit follows the optional
    white space and sign is not refused: [atoi] makes it 0, and the loop
    goes on with brightness 0. *)
Theorem nonnumeric_brightness_is_zero
    (v : string) (rest : list string) (s : State) :
  nonnumeric v = true ->
  atoi v = 0 /\
  parse_args ("--brightness" :: v :: rest) s =
  parse_args rest (mkState (color_id s) 0).
Proof.
  intros H. apply atoi_nonnumeric in H. split; [exact H|].
  rewrite parse_args_pair. change (is_brightness_opt "--brightness") with true.
  cbv iota. rewrite H. reflexivity.
Qed.

Lemma nonnumeric_brightness_is_zero_witness :
  atoi "bright" = 0 /\
  parse_args ("--brightness" :: "bright" :: []) (mkState 4 50) =
  parse_args [] (mkState (color_id (mkState 4 50)) 0).
Proof.
  apply (nonnumeric_brightness_is_zero "bright" [] (mkState 4 50)).
  reflexivity.
Defined.

Lemma atoi_show_int (n : Z) : 0 <= n <= 100 -> atoi (show_int n) = n.
Proof.
  intros Hn.
  assert (Hall : forallb (fun k => atoi (show_int (Z.of_nat k)) =? Z.of_nat k)
                         (seq 0 101) = true) by (vm_compute; reflexivity).
  rewrite forallb_forall in Hall.
  specialize (Hall (Z.to_nat n)).
  rewrite Z2Nat.id in Hall by lia.
  apply Z.eqb_eq, Hall, in_seq. lia.
Qed.

Lemma in_range_test (n : Z) :
  0 <= n <= 100 ->
  ((n <? BRIGHTNESS_MIN) || (n >? BRIGHTNESS_MAX)) = false.
Proof.
  intros Hn. unfold BRIGHTNESS_MIN, BRIGHTNESS_MAX.
  apply orb_false_iff. split.
  - apply Z.ltb_ge. lia.
  - destruct (Z.gtb_spec n 100); [lia | reflexivity].
Qed.

(** X20: every brightness from 0 to 100 written in decimal is read as
    itself and accepted: the loop goes on with exactly that brightness. *)
Theorem decimal_brightness_accepted (n : Z) (rest : list string) (s : State) :
  0 <= n <= 100 ->
  atoi (show_int n) = n /\
  parse_args ("-b" :: show_int n :: rest) s =
  parse_args rest (mkState (color_id s) n).
Proof.
  intros Hn. pose proof (atoi_show_int n Hn) as Ha.
  split; [exact Ha|].
  rewrite parse_args_pair. change (is_brightness_opt "-b") with true.
  cbv iota. rewrite Ha, (in_range_test n Hn).
  destruct (brightness_in_range n (in_range_test n Hn)) as [_ Hu].
  now rewrite Hu.
Qed.

Lemma decimal_brightness_accepted_witness :
  atoi (show_int 75) = 75 /\
  parse_args ("-b" :: show_int 75 :: []) default_state =
  parse_args [] (mkState (color_id default_state) 75).
Proof.
  apply (decimal_brightness_accepted 75 [] default_state). lia.
Defined.

(** ** [main] *)

Lemma in_ioctl_touched name pkt ret log :
  In (EvIoctl name pkt ret) log -> In name (touched log).
Proof.
  induction log as [|ev log IH]; simpl; [tauto|].
  intros [->|Hin]; [now left|].
  destruct ev; simpl; auto.
Qed.

Lemma in_ioctl_sent name pkt ret log :
  In (EvIoctl name pkt ret) log -> In pkt (sent_packets log).
Proof.
  induction log as [|ev log IH]; simpl; [tauto|].
  intros [->|Hin]; [now left|].
  destruct ev; simpl; auto.
Qed.

(** Either [main] returns before any device or store action, or the
    arguments were accepted and it runs the merged setting. *)
Lemma main_shape argv w :
  (filter is_store_event (trace (main argv w)) = [] /\
   touched (trace (main argv w)) = [] /\
   final (main argv w) = w /\
   (exit_code (main argv w) = 1 /\
    ~ (exists prog rest, argv = prog :: "--list" :: rest)
    \/ exit_code (main argv w) = 0 /\
       exists prog rest, argv = prog :: "--list" :: rest))
  \/
  (exists prog a1 rest s,
     argv = prog :: a1 :: rest /\ a1 <> "--list" /\
     parse_args (a1 :: rest) (load_state w) = inr s /\
     main argv w = run_setting w s).
Proof.
  destruct argv as [|prog [|a1 rest]].
  1,2: left; repeat split; left; split; [reflexivity|];
       intros [p [r H]]; discriminate.
  unfold main.
  destruct (streq a1 "--list") eqn:Hlist.
  { apply streq_eq in Hlist. subst a1. left. repeat split.
    right. split; [reflexivity|]. now exists prog, rest. }
  assert (Hne : a1 <> "--list").
  { intros ->. unfold streq in Hlist. now rewrite String.eqb_refl in Hlist. }
  destruct (parse_args (a1 :: rest) (load_state w)) as [msg|s] eqn:Hp.
  { left. repeat split. left. split; [reflexivity|].
    intros [p [r H]]. inversion H. contradiction. }
  right. exists prog, a1, rest, s. repeat split; try assumption.
  unfold run_setting.
  destruct (send_packet w (color_id s) (brightness s)) as [rc log].
  cbn [fst snd]. destruct (rc <? 0); [reflexivity|].
  destruct (save_state w (color_id s) (brightness s)) as [w' log'].
  reflexivity.
Qed.

(** A failed [send_packet] has no ioctl that returned the packet size. *)
Lemma send_failure_no_accept w c b name pkt :
  fst (send_packet w c b) = -1 ->
  ~ In (EvIoctl name pkt PKT_SIZE) (snd (send_packet w c b)).
Proof.
  unfold send_packet. destruct (hidraw w) as [entries|].
  2:{ simpl. intros _ [H|[]]. discriminate. }
  pose proof (scan_loop_failure (build_packet c b) entries) as Hfail.
  destruct (scan_loop (build_packet c b) entries false []) as [success log]
    eqn:Hscan.
  simpl in Hfail. destruct success; simpl; [discriminate|].
  intros _ Hin.
  specialize (Hfail eq_refl).
  rewrite (scan_loop_all_refuse (build_packet c b) entries [] Hfail) in Hscan.
  inversion Hscan; subst log. clear Hscan.
  apply in_app_or in Hin. destruct Hin as [Hin|[H|[]]]; [|discriminate].
  apply in_flat_map in Hin. destruct Hin as [e [He Hev]].
  apply filter_In in He. destruct He as [Hine Hel].
  specialize (Hfail e Hine Hel).
  unfold entry_accepts in Hfail. unfold entry_events in Hev.
  destruct (dev_open e); simpl in Hev, Hfail.
  - destruct Hev as [H|[H|[H|[]]]]; try discriminate.
    inversion H. rewrite H3, Z.eqb_refl in Hfail. discriminate.
  - destruct Hev as [H|[]]. discriminate.
Qed.

(** X21: [main] exits with 0 or 1, and with 0 exactly when the first
    argument is --list or some device node took all nine bytes. *)
Theorem exit_code_meaning (argv : list string) (w : World) :
  (exit_code (main argv w) = 0 \/ exit_code (main argv w) = 1) /\
  (exit_code (main argv w) = 0 <->
   (exists prog rest, argv = prog :: "--list" :: rest) \/
   (exists name pkt, In (EvIoctl name pkt PKT_SIZE) (trace (main argv w)))).
Proof.
  destruct (main_shape argv w)
    as [[_ [Ht [_ [[H1 Hnl] | [H0 Hl]]]]]
       | [prog [a1 [rest [s [Hargv [Hne [Hp Hm]]]]]]]].
  - split; [now right|]. rewrite H1. split; [discriminate|].
    intros [Hl | [name [pkt Hin]]]; [contradiction|].
    apply in_ioctl_touched in Hin. rewrite Ht in Hin. contradiction.
  - split; [now left|]. split; [intros _; now left | intros _; exact H0].
  - rewrite Hm. unfold run_setting.
    destruct (send_packet_spec w (color_id s) (brightness s))
      as [_ [_ [Hrc | [Hrc [name Hin]]]]]; rewrite Hrc.
    + change (-1 <? 0) with true. cbv iota. cbn [exit_code trace].
      split; [now right|]. split; [discriminate|].
      intros [[p [r Hl]] | [name [pkt Hin]]].
      * rewrite Hargv in Hl. inversion Hl. contradiction.
      * now apply send_failure_no_accept in Hin.
    + change (0 <? 0) with false. cbv iota. cbn [exit_code trace].
      split; [now left|]. split; [|reflexivity].
      intros _. right. exists name, (build_packet (color_id s) (brightness s)).
      apply in_or_app. now left.
Qed.

(** X22: no device node is touched before the whole command line has
    been accepted: if the trace of [main] touches a node, the first
    argument is not --list, the option loop has accepted every argument,
    and each packet in the trace is the packet of the merged setting. *)
Theorem devices_only_after_validation
    (argv : list string) (w : World) (name : string) :
  In name (touched (trace (main argv w))) ->
  exists prog a1 rest s,
    argv = prog :: a1 :: rest /\ a1 <> "--list" /\
    parse_args (a1 :: rest) (load_state w) = inr s /\
    forall pkt, In pkt (sent_packets (trace (main argv w))) ->
                pkt = build_packet (color_id s) (brightness s).
Proof.
  intros Hin.
  destruct (main_shape argv w)
    as [[_ [Ht _]] | [prog [a1 [rest [s [Hargv [Hne [Hp Hm]]]]]]]].
  - rewrite Ht in Hin. contradiction.
  - exists prog, a1, rest, s. repeat split; try assumption.
    intros pkt. rewrite Hm. unfold run_setting.
    destruct (fst (send_packet w (color_id s) (brightness s)) <? 0);
      cbn [trace].
    + apply send_packet_sent.
    + rewrite sent_packets_app.
      destruct (save_state_cases w (color_id s) (brightness s))
        as [[_ Hs] | [_ Hs]]; rewrite Hs; cbn [snd app sent_packets];
        rewrite app_nil_r; apply send_packet_sent.
Qed.

Lemma devices_only_after_validation_witness :
  exists prog a1 rest s,
    argv_blue_50 = prog :: a1 :: rest /\ a1 <> "--list" /\
    parse_args (a1 :: rest) (load_state sample_world) = inr s /\
    forall pkt,
      In pkt (sent_packets (trace (main argv_blue_50 sample_world))) ->
      pkt = build_packet (color_id s) (brightness s).
Proof.
  apply (devices_only_after_validation argv_blue_50 sample_world "hidraw2").
  vm_compute. left. reflexivity.
Defined.

(** X23: with a valid setting in the store (or none), every packet
    [main] sends is the packet of a colour of the table and a brightness
    between 0 and 100, whatever the arguments. *)
Theorem valid_store_gives_valid_packets
    (argv : list string) (w : World) (pkt : list Z) :
  valid_state (load_state w) ->
  In pkt (sent_packets (trace (main argv w))) ->
  exists c b, valid_color c /\ 0 <= b <= 100 /\ pkt = build_packet c b.
Proof.
  intros Hvalid Hin.
  destruct (main_shape argv w)
    as [[_ [Ht _]] | [prog [a1 [rest [s [Hargv [Hne [Hp Hm]]]]]]]].
  - exfalso.
    assert (Hnone : sent_packets (trace (main argv w)) = []).
    { destruct (sent_packets (trace (main argv w))) as [|p l] eqn:E;
        [reflexivity|].
      exfalso. clear Hin.
      assert (Hex : exists name, In name (touched (trace (main argv w)))).
      { revert E. generalize (trace (main argv w)) as log.
        induction log as [|ev log IH]; simpl; [discriminate|].
        destruct ev; simpl; intros E;
          try (destruct (IH E) as [n Hn]; exists n; now try right).
        eexists. now left. }
      destruct Hex as [n Hn]. rewrite Ht in Hn. contradiction. }
    rewrite Hnone in Hin. contradiction.
  - pose proof (parse_args_valid_state _ _ _ Hvalid Hp) as [Hc Hb].
    exists (color_id s), (brightness s). repeat split; try assumption;
      try (unfold BRIGHTNESS_MIN, BRIGHTNESS_MAX in Hb; apply Hb).
    revert Hin. rewrite Hm. unfold run_setting.
    destruct (fst (send_packet w (color_id s) (brightness s)) <? 0);
      cbn [trace].
    + apply send_packet_sent.
    + rewrite sent_packets_app.
      destruct (save_state_cases w (color_id s) (brightness s))
        as [[_ Hs] | [_ Hs]]; rewrite Hs; cbn [snd app sent_packets];
        rewrite app_nil_r; apply send_packet_sent.
Qed.

Lemma valid_store_gives_valid_packets_witness :
  exists c b,
    valid_color c /\ 0 <= b <= 100 /\ build_packet 4 50 = build_packet c b.
Proof.
  apply (valid_store_gives_valid_packets argv_blue_50 sample_world).
  - split; [in_table | vm_compute; split; discriminate].
  - vm_compute. left. reflexivity.
Defined.

Lemma save_state_no_device w c b :
  touched (snd (save_state w c b)) = [] /\
  sent_packets (snd (save_state w c b)) = [].
Proof.
  destruct (save_state_cases w c b) as [[_ Hs] | [_ Hs]]; rewrite Hs;
    split; reflexivity.
Qed.

(** X24: whether the state file can be written has no influence on the
    exit code of [main] nor on what it does to the device nodes: a failed
    save is not reported and changes nothing but the store. *)
Theorem save_failure_is_not_reported
    (argv : list string) (w : World) (flag : bool) :
  exit_code (main argv (set_writable w flag)) = exit_code (main argv w) /\
  touched (trace (main argv (set_writable w flag))) =
    touched (trace (main argv w)) /\
  sent_packets (trace (main argv (set_writable w flag))) =
    sent_packets (trace (main argv w)).
Proof.
  destruct argv as [|prog [|a1 rest]]; try (repeat split; reflexivity).
  unfold main.
  destruct (streq a1 "--list"); [repeat split; reflexivity|].
  change (load_state (set_writable w flag)) with (load_state w).
  destruct (parse_args (a1 :: rest) (load_state w)) as [msg|s];
    [repeat split; reflexivity|].
  change (send_packet (set_writable w flag) (color_id s) (brightness s))
    with (send_packet w (color_id s) (brightness s)).
  destruct (send_packet w (color_id s) (brightness s)) as [rc log].
  destruct (rc <? 0); [repeat split; reflexivity|].
  destruct (save_state_no_device (set_writable w flag) (color_id s)
              (brightness s)) as [Ht1 Hs1].
  destruct (save_state_no_device w (color_id s) (brightness s)) as [Ht2 Hs2].
  destruct (save_state (set_writable w flag) (color_id s) (brightness s))
    as [w1 log1].
  destruct (save_state w (color_id s) (brightness s)) as [w2 log2].
  cbn [snd] in *. cbn [exit_code trace].
  rewrite !touched_app, !sent_packets_app, Ht1, Ht2, Hs1, Hs2.
  repeat split; reflexivity.
Qed.

(** X25: what a successful run saves is what the next run starts from:
    when the arguments are accepted, [main] exits with 0 and the state
    file can be written, [load_state] in the final world returns the
    merged setting that was sent. *)
Theorem successful_run_persists_setting
    (prog a1 : string) (rest : list string) (w : World) (s : State) :
  a1 <> "--list" ->
  parse_args (a1 :: rest) (load_state w) = inr s ->
  exit_code (main (prog :: a1 :: rest) w) = 0 ->
  state_writable w = true ->
  load_state (final (main (prog :: a1 :: rest) w)) = s /\
  state_file (final (main (prog :: a1 :: rest) w)) =
    Some [color_id s; brightness s].
Proof.
  intros Hne Hp Hexit Hwr.
  destruct (main_shape (prog :: a1 :: rest) w)
    as [[_ [_ [_ [[H1 _] | [_ [p [r Hl]]]]]]]
       | [prog' [a1' [rest' [s' [Hargv [_ [Hp' Hm]]]]]]]].
  - rewrite H1 in Hexit. discriminate.
  - inversion Hl. contradiction.
  - inversion Hargv; subst prog' a1' rest'.
    rewrite Hp in Hp'. inversion Hp'; subst s'. clear Hp' Hargv.
    rewrite Hm in Hexit |- *. unfold run_setting in *.
    destruct (fst (send_packet w (color_id s) (brightness s)) <? 0);
      [discriminate|].
    cbn [final]. unfold save_state. rewrite Hwr. cbn [fst].
    destruct s as [c b]. split; reflexivity.
Qed.

Lemma successful_run_persists_setting_witness :
  load_state (final (main ("kb-color" :: "-c" :: ["purple"]) sample_world))
    = mkState 6 100 /\
  state_file (final (main ("kb-color" :: "-c" :: ["purple"]) sample_world))
    = Some [color_id (mkState 6 100); brightness (mkState 6 100)].
Proof.
  apply (successful_run_persists_setting "kb-color" "-c" ["purple"]
           sample_world (mkState 6 100)).
  - discriminate.
  - reflexivity.
  - reflexivity.
  - reflexivity.
Defined.

(** Packets of a run whose arguments merge to [s]. *)
Lemma run_setting_sent w s pkt :
  In pkt (sent_packets (trace (run_setting w s))) ->
  pkt = build_packet (color_id s) (brightness s).
Proof.
  unfold run_setting.
  destruct (fst (send_packet w (color_id s) (brightness s)) <? 0);
    cbn [trace].
  - apply send_packet_sent.
  - rewrite sent_packets_app.
    destruct (save_state_no_device w (color_id s) (brightness s)) as [_ Hs].
    rewrite sent_packets_app, Hs. cbn [sent_packets app].
    rewrite app_nil_r. apply send_packet_sent.
Qed.

Lemma main_accepted prog a1 rest w s :
  a1 <> "--list" ->
  parse_args (a1 :: rest) (load_state w) = inr s ->
  main (prog :: a1 :: rest) w = run_setting w s.
Proof.
  intros Hne Hp. unfold main, run_setting.
  destruct (streq a1 "--list") eqn:E; [apply streq_eq in E; contradiction|].
  rewrite Hp.
  destruct (send_packet w (color_id s) (brightness s)) as [rc log].
  cbn [fst snd]. destruct (rc <? 0); [reflexivity|].
  destruct (save_state w (color_id s) (brightness s)); reflexivity.
Qed.

(** X26: an invocation with only a brightness reuses the stored colour:
    with a state file of at least two bytes, first byte c, and a
    brightness n from 0 to 100 written in decimal, every packet sent is
    the packet of colour id c at brightness n; the stored colour id is
    taken as it is, whether or not it is an id of the table. *)
Theorem brightness_only_reuses_stored_color
    (prog : string) (w : World) (c b0 n : Z) (more pkt : list Z) :
  state_file w = Some (c :: b0 :: more) -> 0 <= n <= 100 ->
  In pkt (sent_packets (trace (main [prog; "-b"; show_int n] w))) ->
  pkt = build_packet c n.
Proof.
  intros Hfile Hn Hin.
  assert (Hload : load_state w = mkState c b0)
    by (unfold load_state; now rewrite Hfile).
  assert (Hp : parse_args ["-b"; show_int n] (load_state w)
               = inr (mkState c n)).
  { rewrite Hload, parse_args_pair.
    change (is_brightness_opt "-b") with true. cbv iota.
    rewrite (atoi_show_int n Hn), (in_range_test n Hn).
    destruct (brightness_in_range n (in_range_test n Hn)) as [_ Hu].
    now rewrite Hu. }
  rewrite (main_accepted prog "-b" [show_int n] w (mkState c n)) in Hin.
  - now apply run_setting_sent in Hin.
  - discriminate.
  - exact Hp.
Qed.

Lemma brightness_only_reuses_stored_color_witness :
  build_packet 2 30 = build_packet 2 30.
Proof.
  apply (brightness_only_reuses_stored_color "kb-color"
           (mkWorld None None (Some [2; 80]) true (Some sample_entries))
           2 80 30 []).
  - reflexivity.
  - lia.
  - vm_compute. left. reflexivity.
Defined.

(** X27: an invocation with only a colour reuses the stored brightness:
    with a state file of at least two bytes, second byte b0, and a name
    of the table, every packet sent is the packet of that name's id at
    brightness b0. *)
Theorem color_only_reuses_stored_brightness
    (prog name : string) (id : Z) (w : World) (c0 b0 : Z) (more pkt : list Z) :
  state_file w = Some (c0 :: b0 :: more) -> In (name, id) COLORS ->
  In pkt (sent_packets (trace (main [prog; "--color"; name] w))) ->
  pkt = build_packet id b0.
Proof.
  intros Hfile Hrow Hin.
  assert (Hload : load_state w = mkState c0 b0)
    by (unfold load_state; now rewrite Hfile).
  assert (Hp : parse_args ["--color"; name] (load_state w)
               = inr (mkState id b0)).
  { rewrite Hload. apply COLORS_rows in Hrow.
    repeat (destruct Hrow as [[-> ->]|Hrow]; [reflexivity|]).
    destruct Hrow as [-> ->]. reflexivity. }
  rewrite (main_accepted prog "--color" [name] w (mkState id b0)) in Hin.
  - now apply run_setting_sent in Hin.
  - discriminate.
  - exact Hp.
Qed.

Lemma color_only_reuses_stored_brightness_witness :
  build_packet 1 80 = build_packet 1 80.
Proof.
  apply (color_only_reuses_stored_brightness "kb-color" "red" 1
           (mkWorld None None (Some [2; 80]) true (Some sample_entries))
           2 80 []).
  - reflexivity.
  - vm_compute. tauto.
  - vm_compute. left. reflexivity.
Defined.
